(** * Verification of [parse_contents_file] (package_statistics.py)

    The aggregation step of the Debian package statistics tool: every line
    of a Contents index is split into whitespace-separated fields, the second
    field is split on commas, every resulting token bumps a [Counter], and
    the ten most common entries are returned.

    Python values are embedded as follows.
    - [str] is a list of Unicode code points ([N]).
    - A Python list is a Rocq [list]; indexing it is fallible ([IndexError]).
    - [collections.Counter] is a [dict]: an insertion-ordered association
      from keys to [int] values, with unique keys.  The enumeration order
      decides how ties are ranked, so the embedding is an association list
      in insertion order.
    - Python [int] is unbounded: [Z].
    - Code that can raise returns a [result]. *)

From Stdlib Require Import String Ascii.
From Stdlib Require Import List ZArith NArith Lia Bool.
From Stdlib Require Import Sorting.Sorted Sorting.Permutation.
Import ListNotations.

Set Implicit Arguments.

(** ** Python strings and lists *)

Module Py.

Definition char := N.
Definition str := list char.

Definition str_eq_dec : forall a b : str, {a = b} + {a <> b} :=
  list_eq_dec N.eq_dec.

(** A string literal of the ASCII range, as code points. *)
Definition lit (s : string) : str :=
  map N_of_ascii (list_ascii_of_string s).

(** [str.isspace] on one code point: the table of CPython's
    [_PyUnicode_IsWhitespace], which [str.strip()] and [str.split()]
    consult. *)
Definition isspace (c : char) : bool :=
  ((9 <=? c) && (c <=? 13)            (* \t \n \v \f \r *)
   || (28 <=? c) && (c <=? 32)        (* FS GS RS US and the space *)
   || (c =? 133) || (c =? 160)        (* NEL, NBSP *)
   || (c =? 5760)                     (* U+1680 *)
   || (8192 <=? c) && (c <=? 8202)    (* U+2000 .. U+200A *)
   || (c =? 8232) || (c =? 8233)      (* U+2028, U+2029 *)
   || (c =? 8239) || (c =? 8287)      (* U+202F, U+205F *)
   || (c =? 12288))%N.                (* U+3000 *)

(** [s.lstrip()], [s.rstrip()], [s.strip()] without argument. *)
Fixpoint lstrip (s : str) : str :=
  match s with
  | c :: s' => if isspace c then lstrip s' else s
  | [] => []
  end.

Definition rstrip (s : str) : str := rev (lstrip (rev s)).

Definition strip (s : str) : str := rstrip (lstrip s).

(** [s.split()] without argument: the maximal runs of non-whitespace
    code points, in order.  [word] is the run being scanned, last code
    point first. *)
Fixpoint split_from (word : str) (s : str) : list str :=
  match s with
  | [] => match word with [] => [] | _ => [rev word] end
  | c :: s' =>
      if isspace c
      then match word with
           | [] => split_from [] s'
           | _ => rev word :: split_from [] s'
           end
      else split_from (c :: word) s'
  end.

Definition split (s : str) : list str := split_from [] s.

(** [s.split(sep)] for a separator of one code point: cut at every
    occurrence, empty pieces are kept, and the result is never empty. *)
Fixpoint split_on (sep : char) (s : str) : list str :=
  match s with
  | [] => [[]]
  | c :: s' =>
      if (c =? sep)%N then [] :: split_on sep s'
      else match split_on sep s' with
           | w :: ws => (c :: w) :: ws
           | [] => [[c]]
           end
  end.

Definition comma : char := 44%N.

(** Exceptions and results. *)
Inductive exn : Type := IndexError.

Inductive result (A : Type) : Type :=
| Ok (a : A)
| Raise (e : exn).
Arguments Ok {A} a.
Arguments Raise {A} e.

Definition bind {A B} (m : result A) (k : A -> result B) : result B :=
  match m with
  | Ok a => k a
  | Raise e => Raise e
  end.

(** [l[i]] for a non-negative index. *)
Definition getitem {A} (l : list A) (i : nat) : result A :=
  match nth_error l i with
  | Some a => Ok a
  | None => Raise IndexError
  end.

End Py.

Import Py.

Notation "x <- m ;; k" := (bind m (fun x => k))
  (at level 61, m at next level, right associativity).

(** ** collections.Counter *)

Module Counter.

(** Items in insertion order; keys are pairwise distinct. *)
Definition t := list (str * Z).

(** [Counter()] *)
Definition new : t := [].

(** [d[k]]: a missing key reads as 0 ([Counter.__missing__]) and is not
    inserted by the read. *)
Fixpoint getitem (d : t) (k : str) : Z :=
  match d with
  | [] => 0%Z
  | (k', v) :: d' => if str_eq_dec k' k then v else getitem d' k
  end.

(** [d[k] = v]: an existing key keeps its position, a new key goes to
    the end. *)
Fixpoint setitem (d : t) (k : str) (v : Z) : t :=
  match d with
  | [] => [(k, v)]
  | (k', v') :: d' =>
      if str_eq_dec k' k then (k', v) :: d' else (k', v') :: setitem d' k v
  end.

(** [d.items()] *)
Definition items (d : t) : list (str * Z) := d.

(** [sorted(items, key=itemgetter(1), reverse=True)]: a stable sort,
    so items of equal count keep their relative order. *)
Fixpoint insert_desc (x : str * Z) (l : list (str * Z)) : list (str * Z) :=
  match l with
  | [] => [x]
  | y :: l' =>
      if (snd y <=? snd x)%Z then x :: y :: l' else y :: insert_desc x l'
  end.

Fixpoint sorted_desc (l : list (str * Z)) : list (str * Z) :=
  match l with
  | [] => []
  | x :: l' => insert_desc x (sorted_desc l')
  end.

(** [d.most_common(n)] is [heapq.nlargest(n, d.items(), key=itemgetter(1))],
    which the library documents as
    [sorted(d.items(), key=itemgetter(1), reverse=True)[:n]]; elements of
    equal count come out in the order first encountered. *)
Definition most_common (n : nat) (d : t) : list (str * Z) :=
  firstn n (sorted_desc (items d)).

End Counter.

(** ** The source function *)

(** Lines 77-78: [for package in packages: package_file_count[package] += 1] *)
Fixpoint count_packages (packages : list str) (package_file_count : Counter.t)
  : Counter.t :=
  match packages with
  | [] => package_file_count
  | package :: rest =>
      count_packages rest
        (Counter.setitem package_file_count package
           (Counter.getitem package_file_count package + 1)%Z)
  end.

(** Lines 73-78: the body of the loop over the lines. *)
Definition process_line (package_file_count : Counter.t) (line : str)
  : result Counter.t :=
  let parts := split (strip line) in
  if 2 <=? length parts then
    field <- getitem parts 1 ;;
    let packages := split_on comma field in
    Ok (count_packages packages package_file_count)
  else Ok package_file_count.

(** Lines 70-78: [for line in file], threading the counter. *)
Fixpoint for_lines (file : list str) (package_file_count : Counter.t)
  : result Counter.t :=
  match file with
  | [] => Ok package_file_count
  | line :: rest =>
      c <- process_line package_file_count line ;;
      for_lines rest c
  end.

(** [parse_contents_file], on the lines that iterating the opened file
    yields. *)
Definition parse_contents_file (file : list str) : result (list (str * Z)) :=
  package_file_count <- for_lines file Counter.new ;;
  let top_packages := Counter.most_common 10 package_file_count in
  Ok top_packages.

(** ** Notions the claims are stated with *)

(** The whitespace-separated fields of a line. *)
Definition fields (line : str) : list str := split line.

Definition has_two_fields (line : str) : bool := 2 <=? length (fields line).

(** The comma-separated tokens of the second field of a line; a line of
    fewer than two fields has none. *)
Definition line_tokens (line : str) : list str :=
  if has_two_fields line then split_on comma (nth 1 (fields line) []) else [].

(** All the tokens of a stream, in the order the loop meets them. *)
Definition tokens (lines : list str) : list str := flat_map line_tokens lines.

(** How often [p] is a token of the second field, summed over the lines of
    at least two fields. *)
Definition occurrences (p : str) (lines : list str) : nat :=
  list_sum
    (map (fun line =>
            if has_two_fields line
            then count_occ str_eq_dec (split_on comma (nth 1 (fields line) [])) p
            else 0%nat)
       lines).

(** Position of the first occurrence of [x] in [l] ([list.index]). *)
Fixpoint index (x : str) (l : list str) : option nat :=
  match l with
  | [] => None
  | y :: l' => if str_eq_dec y x then Some 0%nat else option_map S (index x l')
  end.

(** [x] occurs in [l], and [y] occurs somewhere after that occurrence. *)
Definition precedes {A} (x y : A) (l : list A) : Prop :=
  exists l1 l2, l = l1 ++ x :: l2 /\ In y l2.

(** [a] ranks at least as high as [b]. *)
Definition ge_count (a b : str * Z) : Prop := (snd b <= snd a)%Z.

(** The literal scenario of the specification. *)
Definition scenario : list str :=
  [lit "bin/a   pkgA"; lit "bin/b   pkgB,pkgC"; lit "bin/c   pkgA"].

(** A text file iterated line by line yields each line with its newline. *)
Definition nl (s : str) : str := s ++ [10%N].

(** A package identifier free of whitespace and of commas. *)
Definition clean (p : str) : bool :=
  forallb (fun ch => negb (isspace ch) && negb (ch =? comma)%N) p.

(** ** More string methods *)

Module Str.

(** [s.startswith(prefix)] *)
Definition startswith (s prefix : str) : bool :=
  if str_eq_dec (firstn (length prefix) s) prefix then true else false.

(** [s.lstrip(chars)] and [s.rstrip(chars)]: every leading (trailing) code
    point that is one of [chars] goes. *)
Fixpoint lstrip_chars (chars : str) (s : str) : str :=
  match s with
  | c :: s' => if existsb (N.eqb c) chars then lstrip_chars chars s' else s
  | [] => []
  end.

Definition rstrip_chars (chars : str) (s : str) : str :=
  rev (lstrip_chars chars (rev s)).

Definition dash : char := 45%N.
Definition slash : char := 47%N.

End Str.

(** ** get_supported_architectures (lines 104-131) *)

Module Web.

(** What lines 112-117 hand to the loop: [requests.get] or
    [raise_for_status] raised a [requests.RequestException], or the page was
    parsed and [soup.find_all('a')] gave its anchors, of which the loop reads
    [link.get('href')] only: the attribute, or [None] when the anchor has
    none. *)
Inductive page : Type :=
| RequestException
| Anchors (hrefs : list (option str)).

(** The exceptions the loop body can raise; the [except] clause catches
    neither. *)
Inductive exn : Type := AttributeError | IndexError.

Inductive outcome (A : Type) : Type :=
| Returns (a : A)
| Raises (e : exn).
Arguments Returns {A} a.
Arguments Raises {A} e.

(** Lines 120-125, the loop over the anchors, [architectures] being the
    list built so far. *)
Fixpoint for_links (architecture_links : list (option str)) (architectures : list str)
  : outcome (list str) :=
  match architecture_links with
  | [] => Returns architectures
  | link :: rest =>
      match link with
      | None => Raises AttributeError          (* None.startswith *)
      | Some href =>
          if Str.startswith href (lit "binary-") then
            match nth_error (split_on Str.dash href) 1 with
            | None => Raises IndexError
            | Some field =>
                let arch := Str.rstrip_chars [Str.slash] field in
                if str_eq_dec arch (lit "all")
                then for_links rest architectures
                else for_links rest (architectures ++ [arch])
            end
          else for_links rest architectures
      end
  end.

(** The value [get_supported_architectures] returns, or the exception that
    leaves it.  A failed request is caught and gives the empty list (the
    message printed on the way is not part of the value). *)
Definition get_supported_architectures (response : page) : outcome (list str) :=
  match response with
  | RequestException => Returns []
  | Anchors architecture_links => for_links architecture_links []
  end.

End Web.

(** An architecture name that is not [all], has no dash and does not end
    with a slash. *)
Definition architecture_ok (a : str) : Prop :=
  a <> lit "all" /\ ~ In Str.dash a /\ forall init, a <> init ++ [Str.slash].

(** ** Paths (lines 46 and 136-140) *)

Module Path.

(** [s.replace('.gz', '')]: scanning from the left, every occurrence of
    [.gz] that does not overlap an earlier one is removed. *)
Fixpoint remove_gz (s : str) : str :=
  match s with
  | [] => []
  | c :: s1 =>
      match s1 with
      | c2 :: c3 :: s3 =>
          if ((c =? 46) && (c2 =? 103) && (c3 =? 122))%N
          then remove_gz s3
          else c :: remove_gz s1
      | _ => c :: remove_gz s1
      end
  end.

(** ['.gz' in s] *)
Fixpoint contains_gz (s : str) : bool :=
  match s with
  | [] => false
  | c :: s1 => Str.startswith s (lit ".gz") || contains_gz s1
  end.

(** [s.endswith('/')] *)
Definition ends_with_slash (s : str) : bool :=
  match rev s with
  | c :: _ => (c =? Str.slash)%N
  | [] => false
  end.

(** [os.path.join(a, b)] of [posixpath], for two components. *)
Definition join (a b : str) : str :=
  if Str.startswith b (lit "/") then b
  else match a with
       | [] => b
       | _ => if ends_with_slash a then a ++ b else a ++ lit "/" ++ b
       end.

(** Line 137: [f"Contents-{architecture}.gz"] *)
Definition file_name (architecture : str) : str :=
  lit "Contents-" ++ architecture ++ lit ".gz".

(** Line 138 *)
Definition destination (script_directory architecture : str) : str :=
  join script_directory (file_name architecture).

(** Line 139, and line 46 inside [decompress_gzip] *)
Definition decompressed_file (script_directory architecture : str) : str :=
  remove_gz (destination script_directory architecture).

End Path.

(** ** analyze_data (lines 85-101) *)

Module Fmt.

(** [str(n)] for [n >= 0]: the decimal digits, most significant first.
    [fuel] bounds the number of digits; [acc] holds the digits already
    produced, which are the less significant ones. *)
Fixpoint digits (fuel : nat) (n : N) (acc : str) : str :=
  match fuel with
  | O => acc
  | S fuel' =>
      let acc' := (48 + n mod 10)%N :: acc in
      if (n <? 10)%N then acc' else digits fuel' (n / 10)%N acc'
  end.

Definition str_of_N (n : N) : str := digits (S (N.to_nat (N.log2 n))) n [].

(** [str(z)] of an [int] *)
Definition str_of_int (z : Z) : str :=
  if (z <? 0)%Z then Str.dash :: str_of_N (Z.to_N (- z)) else str_of_N (Z.to_N z).

Definition space : char := 32%N.

(** [format(s, '<w')] and [format(s, '>w')]: pad with spaces on the right
    (left) up to [w] code points; a longer string is left whole. *)
Definition ljust (width : nat) (s : str) : str :=
  s ++ repeat space (width - length s).

Definition rjust (width : nat) (s : str) : str :=
  repeat space (width - length s) ++ s.

(** The value a decimal numeral denotes. *)
Fixpoint value (s : str) : N :=
  match s with
  | [] => 0
  | d :: s' => (d - 48) * 10 ^ N.of_nat (length s') + value s'
  end%N.

End Fmt.

(** Line 101: [f"{index:<6} {package:<40} {count:>15}"] *)
Definition row (index : Z) (package : str) (count : Z) : str :=
  Fmt.ljust 6 (Fmt.str_of_int index) ++ [Fmt.space]
  ++ Fmt.ljust 40 package ++ [Fmt.space]
  ++ Fmt.rjust 15 (Fmt.str_of_int count).

(** Lines 100-101: the rows of [enumerate(top_packages, start=index)] *)
Fixpoint rows (index : Z) (top_packages : list (str * Z)) : list str :=
  match top_packages with
  | [] => []
  | (package, count) :: rest => row index package count :: rows (index + 1) rest
  end.

(** Line 97 *)
Definition header : str :=
  Fmt.ljust 6 (lit "Index") ++ [Fmt.space]
  ++ Fmt.ljust 40 (lit "Package Name") ++ [Fmt.space]
  ++ Fmt.rjust 15 (lit "Number of Files").

(** [analyze_data]: the strings handed to [print], in order. *)
Definition analyze_data (file : list str) : result (list str) :=
  top_packages <- parse_contents_file file ;;
  Ok ([10%N :: lit "Top 10 packages with the most files:";
       header;
       repeat Str.dash 65]
      ++ rows 1 top_packages).

(** A decimal digit, [0] to [9]. *)
Definition is_digit (d : char) : Prop := (48 <= d <= 57)%N.

(** ** download_file, the loop over the chunks (lines 23-32) *)

Module Download.

(** Python [bytes] *)
Definition bytes := list N.

(** Lines 28-32: [chunks] is what [response.iter_content] yields, [f] what
    has been written to the destination file, [downloaded] the counter, and
    [reports] the values of [downloaded] that the progress line has shown,
    oldest first. *)
Fixpoint for_chunks (chunks : list bytes) (f : bytes) (downloaded : Z) (reports : list Z)
  : bytes * Z * list Z :=
  match chunks with
  | [] => (f, downloaded, reports)
  | chunk :: rest =>
      match chunk with
      | [] => for_chunks rest f downloaded reports
      | _ =>
          let f := f ++ chunk in
          let downloaded := (downloaded + Z.of_nat (length chunk))%Z in
          for_chunks rest f downloaded (reports ++ [downloaded])
      end
  end.

(** Lines 23 and 27-32: the counter starts at 0 and the file is opened
    empty. *)
Definition write_chunks (chunks : list bytes) : bytes * Z * list Z :=
  for_chunks chunks [] 0%Z [].

End Download.

(** ** main (lines 133-169) *)

Module Main.

(** The calls [main] makes that touch the network or the file system; the
    messages it prints are left out.  [RemoveIfExists path] stands for
    [if os.path.exists(path): os.remove(path)], started; whether
    [os.remove] then raises is the world's answer. *)
Inductive action : Type :=
| DownloadFile (url destination : str)
| DecompressGzip (file_path : str)
| AnalyzeData (file_path : str)
| RemoveIfExists (path : str).

(** How [main] ends: it returns, it leaves through [sys.exit(message)], or
    an exception leaves it. *)
Inductive ending : Type :=
| Returned
| SystemExit (message : str)
| Propagated.

(** What a call to [download_file] does: it returns [True] or [False], or
    an exception that its [except] clauses do not name leaves it. *)
Inductive answer : Type := GaveTrue | GaveFalse | Raised.

(** What the surroundings answer during one run: the directory of the
    script, the page of the mirror, what [download_file] does, what
    [decompress_gzip] returns (it catches every [Exception]), whether
    [analyze_data] returns or raises, and for each of the two removals of
    the [finally] block whether it goes through (the file is absent, or
    [os.remove] succeeds) or [os.remove] raises. *)
Record world : Type := {
  script_directory : str;
  listing : Web.page;
  download : answer;
  decompress_ok : bool;
  analysis_ok : bool;
  remove_destination_ok : bool;
  remove_decompressed_ok : bool
}.

Definition base_url : str :=
  lit "http://ftp.uk.debian.org/debian/dists/stable/main/".

(** [sep.join(l)] *)
Fixpoint join (sep : str) (l : list str) : str :=
  match l with
  | [] => []
  | [x] => x
  | x :: rest => x ++ sep ++ join sep rest
  end.

(** [architecture in architectures] *)
Definition mem (architecture : str) (architectures : list str) : bool :=
  if in_dec str_eq_dec architecture architectures then true else false.

Definition main (architecture : str) (w : world) : list action * ending :=
  let file_name := Path.file_name architecture in
  let destination := Path.join (script_directory w) file_name in
  let decompressed_file := Path.remove_gz destination in
  let url := base_url ++ file_name in
  match Web.get_supported_architectures (listing w) with
  | Web.Raises _ => ([], Propagated)
  | Web.Returns architectures =>
      if negb (mem architecture architectures) then
        ([], SystemExit (lit "Error: '" ++ architecture
                         ++ lit "' is not a supported architecture. Please choose from "
                         ++ join (lit ", ") architectures ++ lit "."))
      else
        match download w with
        | Raised => ([DownloadFile url destination], Propagated)
        | GaveFalse =>
            ([DownloadFile url destination],
             SystemExit (lit "Failed to download the file: " ++ url))
        | GaveTrue =>
            if negb (decompress_ok w) then
              ([DownloadFile url destination; DecompressGzip destination],
               SystemExit (lit "Failed to decompress the file: " ++ destination))
            else
              (* try: analyze_data(...)  finally: the two removals.  An
                 exception of the first [os.remove] leaves [main] at once;
                 with both removals through, an exception of the analysis
                 goes on. *)
              let reached :=
                [DownloadFile url destination; DecompressGzip destination;
                 AnalyzeData decompressed_file; RemoveIfExists destination] in
              if negb (remove_destination_ok w) then (reached, Propagated)
              else if negb (remove_decompressed_ok w) then
                (reached ++ [RemoveIfExists decompressed_file], Propagated)
              else
                (reached ++ [RemoveIfExists decompressed_file],
                 if analysis_ok w then Returned else Propagated)
        end
  end.


End Main.

(** ** parse_contents_file with its counter in the store *)

Module Store.

(** The [Counter] objects that the running program has created, by address;
    [next] is the address that the next new object gets.  What an earlier
    call has left behind is in here when a later call starts. *)
Record heap : Type := { next : nat; obj : nat -> Counter.t }.

(** Line 68, [Counter()]: a new, empty object. *)
Definition alloc (h : heap) : nat * heap :=
  (next h,
   {| next := S (next h);
      obj := fun a => if Nat.eqb a (next h) then Counter.new else obj h a |}).

(** Line 78, [package_file_count[package] += 1], on the object at [a]. *)
Definition increment (a : nat) (package : str) (h : heap) : heap :=
  {| next := next h;
     obj := fun a' =>
              if Nat.eqb a' a
              then Counter.setitem (obj h a) package
                     (Counter.getitem (obj h a) package + 1)%Z
              else obj h a' |}.

(** Lines 77-78 *)
Fixpoint count_packages_at (a : nat) (packages : list str) (h : heap) : heap :=
  match packages with
  | [] => h
  | package :: rest => count_packages_at a rest (increment a package h)
  end.

(** Lines 73-78 *)
Definition process_line_at (a : nat) (line : str) (h : heap) : result unit * heap :=
  let parts := split (strip line) in
  if 2 <=? length parts then
    match getitem parts 1 with
    | Ok field => (Ok tt, count_packages_at a (split_on comma field) h)
    | Raise e => (Raise e, h)
    end
  else (Ok tt, h).

(** Lines 70-78 *)
Fixpoint for_lines_at (a : nat) (file : list str) (h : heap) : result unit * heap :=
  match file with
  | [] => (Ok tt, h)
  | line :: rest =>
      match process_line_at a line h with
      | (Ok _, h') => for_lines_at a rest h'
      | (Raise e, h') => (Raise e, h')
      end
  end.

(** Lines 68-83: one call, from the store it finds to the value it returns
    and the store it leaves. *)
Definition parse_contents_file (file : list str) (h : heap)
  : result (list (str * Z)) * heap :=
  let '(package_file_count, h) := alloc h in
  match for_lines_at package_file_count file h with
  | (Ok _, h') => (Ok (Counter.most_common 10 (obj h' package_file_count)), h')
  | (Raise e, h') => (Raise e, h')
  end.

End Store.

(** ** Splitting and stripping *)

Section Splitting.

Lemma split_from_lstrip (s : str) : split_from [] (lstrip s) = split_from [] s.
Proof.
  induction s as [|c s IH]; simpl; [reflexivity|].
  destruct (isspace c) eqn:Hc; [exact IH|].
  simpl. rewrite Hc. reflexivity.
Qed.

Lemma split_from_snoc_space (s : str) :
  forall (w : str) (c : char),
    isspace c = true -> split_from w (s ++ [c]) = split_from w s.
Proof.
  induction s as [|a s IH]; intros w c Hc; simpl.
  - rewrite Hc. destruct w; reflexivity.
  - destruct (isspace a); [destruct w|]; rewrite IH by assumption; reflexivity.
Qed.

Lemma split_from_app_spaces (ws : str) :
  forall (w s : str),
    forallb isspace ws = true -> split_from w (s ++ ws) = split_from w s.
Proof.
  induction ws as [|c ws IH]; intros w s H; simpl in H.
  - rewrite app_nil_r. reflexivity.
  - apply andb_true_iff in H as [Hc Hws].
    change (c :: ws) with ([c] ++ ws). rewrite app_assoc.
    rewrite IH by assumption. apply split_from_snoc_space; assumption.
Qed.

Lemma lstrip_decompose (s : str) :
  exists ws, s = ws ++ lstrip s /\ forallb isspace ws = true.
Proof.
  induction s as [|c s (ws & Hs & Hws)]; simpl.
  - exists []. split; reflexivity.
  - destruct (isspace c) eqn:Hc.
    + exists (c :: ws). simpl. rewrite Hc, Hws. split; [congruence | reflexivity].
    + exists []. split; reflexivity.
Qed.

Lemma rstrip_decompose (s : str) :
  exists ws, s = rstrip s ++ ws /\ forallb isspace ws = true.
Proof.
  destruct (lstrip_decompose (rev s)) as (ws & Hs & Hws).
  exists (rev ws). split.
  - unfold rstrip. rewrite <- rev_app_distr, <- Hs, rev_involutive. reflexivity.
  - rewrite forallb_forall in *. intros x Hx. apply Hws. apply in_rev. exact Hx.
Qed.

(** [line.strip().split()] and [line.split()] agree. *)
Lemma split_strip (s : str) : split (strip s) = split s.
Proof.
  unfold split, strip.
  destruct (rstrip_decompose (lstrip s)) as (ws & Hs & Hws).
  rewrite <- (split_from_lstrip s). rewrite Hs at 2.
  rewrite split_from_app_spaces by assumption. reflexivity.
Qed.

End Splitting.

(** ** The loop *)

Lemma getitem_second (A : Type) (l : list A) (d : A) :
  (2 <= length l)%nat -> getitem l 1 = Ok (nth 1 l d).
Proof.
  destruct l as [|a [|b l]]; simpl; intros H; try lia. reflexivity.
Qed.

Lemma process_line_tokens (c : Counter.t) (line : str) :
  process_line c line = Ok (count_packages (line_tokens line) c).
Proof.
  unfold process_line, line_tokens, has_two_fields, fields.
  rewrite split_strip.
  destruct (2 <=? length (split line)) eqn:H; [|reflexivity].
  apply Nat.leb_le in H.
  rewrite (getitem_second (split line) [] H). reflexivity.
Qed.

Lemma count_packages_app (t1 t2 : list str) :
  forall c, count_packages (t1 ++ t2) c = count_packages t2 (count_packages t1 c).
Proof.
  induction t1 as [|t t1 IH]; intros c; simpl; [reflexivity | apply IH].
Qed.

Lemma for_lines_tokens (lines : list str) :
  forall c, for_lines lines c = Ok (count_packages (tokens lines) c).
Proof.
  induction lines as [|line lines IH]; intros c; simpl; [reflexivity|].
  rewrite process_line_tokens. simpl. rewrite IH, count_packages_app. reflexivity.
Qed.

Lemma parse_contents_file_tokens (lines : list str) :
  parse_contents_file lines
  = Ok (Counter.most_common 10 (count_packages (tokens lines) Counter.new)).
Proof.
  unfold parse_contents_file. rewrite for_lines_tokens. reflexivity.
Qed.

(** ** Facts about the counter *)

Section CounterFacts.

Lemma getitem_setitem (d : Counter.t) (k k' : str) (v : Z) :
  Counter.getitem (Counter.setitem d k v) k'
  = if str_eq_dec k k' then v else Counter.getitem d k'.
Proof.
  induction d as [|[k0 v0] d IH]; simpl.
  - destruct (str_eq_dec k k'); reflexivity.
  - destruct (str_eq_dec k0 k) as [E|N]; simpl.
    + subst k0. destruct (str_eq_dec k k'); reflexivity.
    + destruct (str_eq_dec k0 k') as [E'|N'].
      * subst k0. destruct (str_eq_dec k k'); [contradiction N; symmetry; assumption | reflexivity].
      * exact IH.
Qed.

Lemma keys_setitem (d : Counter.t) (k : str) (v : Z) :
  map fst (Counter.setitem d k v)
  = if in_dec str_eq_dec k (map fst d) then map fst d else map fst d ++ [k].
Proof.
  induction d as [|[k0 v0] d IH]; simpl; [reflexivity|].
  destruct (str_eq_dec k0 k) as [E|N]; simpl.
  - reflexivity.
  - rewrite IH. destruct (in_dec str_eq_dec k (map fst d)); reflexivity.
Qed.

Lemma keys_setitem_extends (d : Counter.t) (k : str) (v : Z) :
  exists extra, map fst (Counter.setitem d k v) = map fst d ++ extra.
Proof.
  rewrite keys_setitem. destruct (in_dec str_eq_dec k (map fst d)).
  - exists []. rewrite app_nil_r. reflexivity.
  - exists [k]. reflexivity.
Qed.

Lemma keys_setitem_in (d : Counter.t) (k k' : str) (v : Z) :
  In k' (map fst (Counter.setitem d k v)) <-> In k' (map fst d) \/ k' = k.
Proof.
  rewrite keys_setitem. destruct (in_dec str_eq_dec k (map fst d)) as [Hin|Hout].
  - split; [tauto|]. intros [H|H]; [assumption | subst; assumption].
  - rewrite in_app_iff. simpl. intuition congruence.
Qed.

Lemma keys_setitem_nodup (d : Counter.t) (k : str) (v : Z) :
  NoDup (map fst d) -> NoDup (map fst (Counter.setitem d k v)).
Proof.
  intros H. rewrite keys_setitem.
  destruct (in_dec str_eq_dec k (map fst d)) as [Hin|Hout]; [assumption|].
  apply NoDup_app; [assumption | repeat constructor; intros [] | ].
  intros x Hx [Hk|[]]. subst. contradiction.
Qed.

Lemma getitem_count_packages (toks : list str) :
  forall (c : Counter.t) (p : str),
    Counter.getitem (count_packages toks c) p
    = (Counter.getitem c p + Z.of_nat (count_occ str_eq_dec toks p))%Z.
Proof.
  induction toks as [|t toks IH]; intros c p; simpl; [lia|].
  rewrite IH, getitem_setitem.
  destruct (str_eq_dec t p) as [E|N]; [subst t; lia | lia].
Qed.

Lemma keys_count_packages_in (toks : list str) :
  forall (c : Counter.t) (k : str),
    In k (map fst (count_packages toks c)) <-> In k (map fst c) \/ In k toks.
Proof.
  induction toks as [|t toks IH]; intros c k; simpl; [tauto|].
  rewrite IH, keys_setitem_in. intuition congruence.
Qed.

Lemma keys_count_packages_nodup (toks : list str) :
  forall c, NoDup (map fst c) -> NoDup (map fst (count_packages toks c)).
Proof.
  induction toks as [|t toks IH]; intros c H; simpl; [assumption|].
  apply IH, keys_setitem_nodup, H.
Qed.

Lemma keys_count_packages_extends (toks : list str) :
  forall c, exists extra, map fst (count_packages toks c) = map fst c ++ extra.
Proof.
  induction toks as [|t toks IH]; intros c; simpl.
  - exists []. rewrite app_nil_r. reflexivity.
  - destruct (IH (Counter.setitem c t (Counter.getitem c t + 1)%Z)) as (e2 & H2).
    destruct (keys_setitem_extends c t (Counter.getitem c t + 1)%Z) as (e1 & H1).
    exists (e1 ++ e2). rewrite H2, H1, app_assoc. reflexivity.
Qed.

Lemma getitem_in (d : Counter.t) (k : str) (v : Z) :
  NoDup (map fst d) -> In (k, v) d -> Counter.getitem d k = v.
Proof.
  induction d as [|[k0 v0] d IH]; simpl; intros Hnd Hin; [contradiction|].
  inversion Hnd as [|? ? Hk0 Hd]; subst.
  destruct Hin as [E|Hin].
  - inversion E; subst. destruct (str_eq_dec k k); [reflexivity | congruence].
  - destruct (str_eq_dec k0 k) as [E|N].
    + subst k0. exfalso. apply Hk0. apply (in_map fst) in Hin. exact Hin.
    + apply IH; assumption.
Qed.

End CounterFacts.

(** ** Facts about the ranking *)

Section Ranking.

Lemma firstn_In (A : Type) (n : nat) (l : list A) (x : A) :
  In x (firstn n l) -> In x l.
Proof.
  intros H. rewrite <- (firstn_skipn n l). apply in_app_iff. left. exact H.
Qed.

Lemma insert_desc_decompose (x : str * Z) (l : list (str * Z)) :
  exists l1 l2,
    Counter.insert_desc x l = l1 ++ x :: l2 /\ l = l1 ++ l2
    /\ Forall (fun e => (snd x < snd e)%Z) l1.
Proof.
  induction l as [|y l (l1 & l2 & H1 & H2 & H3)]; simpl.
  - exists [], []. repeat split. constructor.
  - destruct (snd y <=? snd x)%Z eqn:Hle.
    + exists [], (y :: l). repeat split. constructor.
    + apply Z.leb_gt in Hle.
      exists (y :: l1), l2. simpl. rewrite H1, <- H2. repeat split.
      constructor; assumption.
Qed.

Lemma insert_desc_perm (x : str * Z) (l : list (str * Z)) :
  Permutation (Counter.insert_desc x l) (x :: l).
Proof.
  destruct (insert_desc_decompose x l) as (l1 & l2 & H1 & H2 & _).
  rewrite H1, H2. symmetry. apply Permutation_middle.
Qed.

Lemma sorted_desc_perm (l : list (str * Z)) :
  Permutation (Counter.sorted_desc l) l.
Proof.
  induction l as [|x l IH]; simpl; [constructor|].
  rewrite insert_desc_perm. constructor. exact IH.
Qed.

Lemma insert_desc_sorted (x : str * Z) (l : list (str * Z)) :
  StronglySorted ge_count l -> StronglySorted ge_count (Counter.insert_desc x l).
Proof.
  induction l as [|y l IH]; simpl; intros Hs.
  - repeat constructor.
  - inversion Hs as [|? ? Hl Hy]; subst.
    destruct (snd y <=? snd x)%Z eqn:Hle.
    + apply Z.leb_le in Hle. constructor; [assumption|].
      constructor; [exact Hle|].
      rewrite Forall_forall in *. intros z Hz. specialize (Hy z Hz).
      unfold ge_count in *. lia.
    + apply Z.leb_gt in Hle. constructor; [apply IH; assumption|].
      rewrite Forall_forall in *. intros z Hz.
      apply (Permutation_in _ (insert_desc_perm x l)) in Hz.
      destruct Hz as [E|Hz]; [subst z; unfold ge_count; lia | apply Hy, Hz].
Qed.

Lemma sorted_desc_sorted (l : list (str * Z)) :
  StronglySorted ge_count (Counter.sorted_desc l).
Proof.
  induction l as [|x l IH]; simpl; [constructor | apply insert_desc_sorted, IH].
Qed.

Lemma firstn_sorted (n : nat) (l : list (str * Z)) :
  StronglySorted ge_count l -> StronglySorted ge_count (firstn n l).
Proof.
  revert n. induction l as [|x l IH]; intros [|n] Hs; simpl; try constructor.
  - inversion Hs; subst. apply IH. assumption.
  - inversion Hs as [|? ? _ Hx]; subst.
    rewrite Forall_forall in *. intros z Hz. apply Hx.
    apply (firstn_In _ _ _ Hz).
Qed.

(** Putting one more element anywhere keeps [x] ahead of [y]. *)
Lemma precedes_insert (A : Type) (x y z : A) (s1 s2 : list A) :
  precedes x y (s1 ++ s2) -> precedes x y (s1 ++ z :: s2).
Proof.
  intros (l1 & l2 & Heq & Hy).
  apply app_eq_app in Heq as (u & [[-> Hu] | [-> ->]]).
  - destruct u as [|a u]; simpl in Hu.
    + subst s2. rewrite app_nil_r. exists (l1 ++ [z]), l2.
      rewrite <- app_assoc. split; [reflexivity | assumption].
    + inversion Hu; subst a l2. exists l1, (u ++ z :: s2).
      rewrite <- app_assoc. split; [reflexivity|].
      apply in_app_iff in Hy. apply in_app_iff. simpl. tauto.
  - exists (s1 ++ z :: u), l2. rewrite <- app_assoc. split; [reflexivity | assumption].
Qed.

(** The sort is stable: an item ahead of another of no larger count stays
    ahead of it. *)
Lemma sorted_desc_stable (x y : str * Z) (l : list (str * Z)) :
  (snd y <= snd x)%Z -> precedes x y l -> precedes x y (Counter.sorted_desc l).
Proof.
  intros Hxy. induction l as [|z l IH]; intros (l1 & l2 & Heq & Hy).
  - destruct l1; discriminate.
  - simpl.
    destruct (insert_desc_decompose z (Counter.sorted_desc l))
      as (s1 & s2 & Hins & Hs & Hgt).
    rewrite Hins.
    destruct l1 as [|a l1]; simpl in Heq; inversion Heq; subst.
    + exists s1, s2. split; [reflexivity|].
      apply (Permutation_in _ (Permutation_sym (sorted_desc_perm l2))) in Hy.
      rewrite Hs in Hy. apply in_app_iff in Hy as [Hy|Hy]; [|assumption].
      rewrite Forall_forall in Hgt. specialize (Hgt y Hy). lia.
    + apply precedes_insert. rewrite <- Hs. apply IH.
      exists l1, l2. split; [reflexivity | assumption].
Qed.

(** Truncation keeps the order of the items that survive it. *)
Lemma precedes_firstn (A : Type) (x y : A) (n : nat) (l : list A) :
  NoDup l -> precedes x y l -> In y (firstn n l) -> precedes x y (firstn n l).
Proof.
  intros Hnd (l1 & l2 & -> & Hy) Hin.
  apply in_split in Hy as (m1 & m2 & ->).
  assert (Hlen : (length (l1 ++ x :: m1) < n)%nat).
  { destruct (Nat.lt_ge_cases (length (l1 ++ x :: m1)) n) as [H|H]; [exact H|].
    exfalso.
    replace (l1 ++ x :: m1 ++ y :: m2) with ((l1 ++ x :: m1) ++ y :: m2) in Hin, Hnd
      by (rewrite <- app_assoc; reflexivity).
    rewrite firstn_app in Hin.
    replace (n - length (l1 ++ x :: m1))%nat with 0%nat in Hin by lia.
    simpl in Hin. rewrite app_nil_r in Hin. apply firstn_In in Hin.
    apply NoDup_remove_2 in Hnd. apply Hnd. apply in_app_iff. left. exact Hin. }
  rewrite length_app in Hlen. simpl in Hlen.
  rewrite firstn_app.
  rewrite (firstn_all2 (n := n) l1) by lia.
  destruct (n - length l1)%nat as [|k] eqn:Hk; [lia|]. simpl.
  exists l1, (firstn k (m1 ++ y :: m2)). split; [reflexivity|].
  rewrite firstn_app. apply in_app_iff. right.
  destruct (k - length m1)%nat as [|k'] eqn:Hk'; [lia|]. simpl. left. reflexivity.
Qed.

End Ranking.

(** ** Positions of first occurrences *)

Section Positions.

Lemma index_decompose (x : str) (l : list str) :
  forall i, index x l = Some i ->
    exists l1 l2, l = l1 ++ x :: l2 /\ ~ In x l1 /\ length l1 = i.
Proof.
  induction l as [|y l IH]; simpl; intros i H; [discriminate|].
  destruct (str_eq_dec y x) as [E|N].
  - inversion H; subst. exists [], l. repeat split. intros [].
  - destruct (index x l) as [k|] eqn:Hk; simpl in H; [|discriminate].
    inversion H; subst i.
    destruct (IH k eq_refl) as (l1 & l2 & -> & Hout & Hlen).
    exists (y :: l1), l2. simpl. repeat split; [|congruence].
    intros [E|Hin]; [exact (N E) | exact (Hout Hin)].
Qed.

Lemma index_at (x : str) (l1 l2 : list str) :
  ~ In x l1 -> index x (l1 ++ x :: l2) = Some (length l1).
Proof.
  induction l1 as [|y l1 IH]; simpl; intros Hout.
  - destruct (str_eq_dec x x); [reflexivity | congruence].
  - destruct (str_eq_dec y x) as [E|N]; [exfalso; apply Hout; left; exact E|].
    rewrite IH by (intros H; apply Hout; right; exact H). reflexivity.
Qed.

Lemma index_in (x : str) (l : list str) :
  forall i, index x l = Some i -> In x l.
Proof.
  intros i H. destruct (index_decompose x l H) as (l1 & l2 & -> & _).
  apply in_app_iff. right. left. reflexivity.
Qed.

Lemma index_in_prefix (x : str) (l1 l2 : list str) :
  In x l1 -> exists k, index x (l1 ++ l2) = Some k /\ (k < length l1)%nat.
Proof.
  induction l1 as [|y l1 IH]; simpl; intros Hin; [contradiction|].
  destruct (str_eq_dec y x) as [E|N].
  - exists 0%nat. split; [reflexivity | lia].
  - destruct Hin as [E|Hin]; [contradiction|].
    destruct (IH Hin) as (k & -> & Hk). exists (S k). split; [reflexivity | lia].
Qed.

(** The earlier first occurrence, as a decomposition of the list. *)
Lemma index_lt_decompose (x y : str) (l : list str) (i j : nat) :
  index x l = Some i -> index y l = Some j -> (i < j)%nat ->
  exists l1 l2, l = l1 ++ x :: l2 /\ ~ In y l1 /\ x <> y /\ In y l2.
Proof.
  intros Hx Hy Hlt.
  destruct (index_decompose x l Hx) as (l1 & l2 & -> & Hout & Hlen).
  assert (Hy1 : ~ In y l1).
  { intros Hin. destruct (index_in_prefix y l1 (x :: l2) Hin) as (k & Hk & Hklt).
    rewrite Hk in Hy. inversion Hy. lia. }
  assert (Hne : x <> y).
  { intros ->. rewrite index_at in Hy by assumption. inversion Hy. lia. }
  exists l1, l2. repeat split; try assumption.
  apply index_in in Hy. apply in_app_iff in Hy as [Hy|[Hy|Hy]];
    [contradiction | contradiction | assumption].
Qed.

Lemma precedes_map_fst (d : list (str * Z)) (a b : str) :
  precedes a b (map fst d) ->
  exists va vb, precedes (a, va) (b, vb) d.
Proof.
  intros (l1 & l2 & Heq & Hb).
  apply map_eq_app in Heq as (d1 & d2 & -> & <- & Hd2).
  apply map_eq_cons in Hd2 as ([a' va] & d3 & -> & Ha & <-). simpl in Ha. subst a'.
  apply in_map_iff in Hb as ([b' vb] & Hb' & Hin). simpl in Hb'. subst b'.
  exists va, vb, d1, d3. split; [reflexivity | assumption].
Qed.

Lemma precedes_in (A : Type) (x y : A) (l : list A) :
  precedes x y l -> In x l /\ In y l.
Proof.
  intros (l1 & l2 & -> & Hy). split; apply in_app_iff; right; simpl; tauto.
Qed.

Lemma precedes_index (r : list (str * Z)) (a b : str) (va vb : Z) :
  NoDup (map fst r) -> precedes (a, va) (b, vb) r ->
  exists ia jb,
    index a (map fst r) = Some ia /\ index b (map fst r) = Some jb /\ (ia < jb)%nat.
Proof.
  intros Hnd (r1 & r2 & -> & Hb).
  apply in_split in Hb as (m1 & m2 & ->).
  exists (length (map fst r1)), (length (map fst (r1 ++ (a, va) :: m1))).
  assert (Ha : ~ In a (map fst r1)).
  { rewrite map_app in Hnd. simpl in Hnd. apply NoDup_remove_2 in Hnd.
    intros H. apply Hnd. apply in_app_iff. left. exact H. }
  assert (Hb : ~ In b (map fst (r1 ++ (a, va) :: m1))).
  { replace (r1 ++ (a, va) :: m1 ++ (b, vb) :: m2)
      with ((r1 ++ (a, va) :: m1) ++ (b, vb) :: m2) in Hnd
      by (rewrite <- app_assoc; reflexivity).
    rewrite map_app in Hnd. simpl in Hnd. apply NoDup_remove_2 in Hnd.
    intros H. apply Hnd. apply in_app_iff. left. exact H. }
  repeat split.
  - rewrite map_app. simpl. apply index_at. exact Ha.
  - replace (r1 ++ (a, va) :: m1 ++ (b, vb) :: m2)
      with ((r1 ++ (a, va) :: m1) ++ (b, vb) :: m2)
      by (rewrite <- app_assoc; reflexivity).
    rewrite (map_app fst (r1 ++ (a, va) :: m1)). simpl. apply index_at. exact Hb.
  - rewrite !length_map, length_app. simpl. lia.
Qed.

(** The counter enumerates its keys in the order of first occurrence. *)
Lemma keys_first_occurrence_order (toks : list str) (a b : str) (i j : nat) :
  index a toks = Some i -> index b toks = Some j -> (i < j)%nat ->
  precedes a b (map fst (count_packages toks Counter.new)).
Proof.
  intros Ha Hb Hlt.
  destruct (index_lt_decompose a b toks Ha Hb Hlt) as (t1 & t2 & -> & Hb1 & Hne & Hb2).
  replace (t1 ++ a :: t2) with ((t1 ++ [a]) ++ t2) by (rewrite <- app_assoc; reflexivity).
  rewrite count_packages_app.
  set (c1 := count_packages (t1 ++ [a]) Counter.new).
  assert (Hin_a : In a (map fst c1)).
  { apply keys_count_packages_in. right. apply in_app_iff. right. left. reflexivity. }
  assert (Hout_b : ~ In b (map fst c1)).
  { intros H. apply keys_count_packages_in in H as [[]|H].
    apply in_app_iff in H as [H|[H|[]]]; [exact (Hb1 H) | exact (Hne H)]. }
  destruct (keys_count_packages_extends t2 c1) as (extra & Hext).
  assert (Hin_b : In b extra).
  { assert (H : In b (map fst (count_packages t2 c1)))
      by (apply keys_count_packages_in; right; exact Hb2).
    rewrite Hext in H. apply in_app_iff in H as [H|H]; [contradiction | exact H]. }
  apply in_split in Hin_a as (k1 & k2 & Hk).
  exists k1, (k2 ++ extra). rewrite Hext, Hk, <- app_assoc. split; [reflexivity|].
  apply in_app_iff. right. exact Hin_b.
Qed.

Lemma keys_nodup (toks : list str) :
  NoDup (map fst (count_packages toks Counter.new)).
Proof. apply keys_count_packages_nodup. constructor. Qed.

Lemma most_common_keys_nodup (n : nat) (d : Counter.t) :
  NoDup (map fst d) -> NoDup (map fst (Counter.most_common n d)).
Proof.
  intros H. unfold Counter.most_common, Counter.items.
  assert (Hs : NoDup (map fst (Counter.sorted_desc d))).
  { apply (Permutation_NoDup (l := map fst d)); [|exact H].
    apply Permutation_map. symmetry. apply sorted_desc_perm. }
  rewrite <- (firstn_skipn n (Counter.sorted_desc d)), map_app in Hs.
  apply NoDup_app_remove_r in Hs. exact Hs.
Qed.

Lemma most_common_in (n : nat) (d : Counter.t) (e : str * Z) :
  In e (Counter.most_common n d) -> In e d.
Proof.
  intros H. apply firstn_In in H.
  apply (Permutation_in _ (sorted_desc_perm d)). exact H.
Qed.

End Positions.

(** ** Tokens and occurrences *)

Lemma occurrences_tokens (p : str) (lines : list str) :
  occurrences p lines = count_occ str_eq_dec (tokens lines) p.
Proof.
  unfold occurrences, tokens.
  induction lines as [|line lines IH]; simpl; [reflexivity|].
  rewrite count_occ_app, IH. unfold line_tokens.
  destruct (has_two_fields line); reflexivity.
Qed.

Lemma tokens_app (l1 l2 : list str) : tokens (l1 ++ l2) = tokens l1 ++ tokens l2.
Proof. apply flat_map_app. Qed.

Lemma tokens_filter (lines : list str) :
  tokens (filter has_two_fields lines) = tokens lines.
Proof.
  unfold tokens. induction lines as [|line lines IH]; simpl; [reflexivity|].
  destruct (has_two_fields line) eqn:H; simpl; rewrite IH; [reflexivity|].
  unfold line_tokens. rewrite H. reflexivity.
Qed.

Lemma split_on_nonempty (sep : char) (s : str) : split_on sep s <> [].
Proof.
  destruct s as [|c s]; simpl; [discriminate|].
  destruct (c =? sep)%N; [discriminate|].
  destruct (split_on sep s); discriminate.
Qed.

Lemma split_on_sep (sep : char) (s1 s2 : str) :
  split_on sep (s1 ++ sep :: s2) = split_on sep s1 ++ split_on sep s2.
Proof.
  induction s1 as [|c s1 IH]; simpl.
  - rewrite N.eqb_refl. reflexivity.
  - rewrite IH. destruct (c =? sep)%N; [reflexivity|].
    destruct (split_on sep s1) as [|w ws] eqn:H; [|reflexivity].
    exfalso. exact (split_on_nonempty sep s1 H).
Qed.

Lemma counted_keys_length (toks : list str) :
  length (count_packages toks Counter.new) = length (nodup str_eq_dec toks).
Proof.
  rewrite <- (length_map fst). apply Permutation_length, NoDup_Permutation.
  - apply keys_nodup.
  - apply NoDup_nodup.
  - intros k. rewrite nodup_In, keys_count_packages_in. simpl. tauto.
Qed.

Lemma in_index (x : str) (l : list str) : In x l -> exists k, index x l = Some k.
Proof.
  intros H. destruct (@index_in_prefix x l [] H) as (k & Hk & _).
  rewrite app_nil_r in Hk. exists k. exact Hk.
Qed.

(** ** The store *)

Lemma count_packages_at_spec (packages : list str) :
  forall a h,
    Store.next (Store.count_packages_at a packages h) = Store.next h
    /\ Store.obj (Store.count_packages_at a packages h) a
       = count_packages packages (Store.obj h a)
    /\ forall a', a' <> a ->
         Store.obj (Store.count_packages_at a packages h) a' = Store.obj h a'.
Proof.
  induction packages as [|p ps IH]; intros a h;
    cbn [Store.count_packages_at count_packages].
  - repeat split.
  - destruct (IH a (Store.increment a p h)) as (Hn & Ha & Hf).
    split; [rewrite Hn; reflexivity|]. split.
    + rewrite Ha. unfold Store.increment. cbn [Store.obj].
      rewrite Nat.eqb_refl. reflexivity.
    + intros a' Hne. rewrite (Hf a' Hne). unfold Store.increment. cbn [Store.obj].
      destruct (Nat.eqb_spec a' a); [contradiction | reflexivity].
Qed.

Lemma for_lines_at_spec (lines : list str) :
  forall a h,
    exists h',
      Store.for_lines_at a lines h = (Ok tt, h')
      /\ Store.next h' = Store.next h
      /\ Store.obj h' a = count_packages (tokens lines) (Store.obj h a)
      /\ forall a', a' <> a -> Store.obj h' a' = Store.obj h a'.
Proof.
  induction lines as [|line lines IH]; intros a h; cbn [Store.for_lines_at].
  - exists h. repeat split.
  - assert (Hline : exists h1,
               Store.process_line_at a line h = (Ok tt, h1)
               /\ Store.next h1 = Store.next h
               /\ Store.obj h1 a = count_packages (line_tokens line) (Store.obj h a)
               /\ forall a', a' <> a -> Store.obj h1 a' = Store.obj h a').
    { unfold Store.process_line_at, line_tokens, has_two_fields, fields.
      rewrite split_strip.
      destruct (2 <=? length (split line)) eqn:H2.
      - apply Nat.leb_le in H2. rewrite (getitem_second (split line) [] H2).
        eexists. split; [reflexivity|]. apply count_packages_at_spec.
      - exists h. repeat split. }
    destruct Hline as (h1 & -> & Hn1 & Ha1 & Hf1).
    destruct (IH a h1) as (h' & Hrun & Hn & Ha & Hf).
    exists h'. split; [exact Hrun|]. split; [congruence|]. split.
    + rewrite Ha, Ha1. unfold tokens. cbn [flat_map].
      rewrite count_packages_app. reflexivity.
    + intros a' Hne. rewrite (Hf a' Hne). apply Hf1, Hne.
Qed.

(** One call allocates its counter, fills it and reads it back: the value
    does not depend on the store the call starts from, and the call leaves
    the objects that existed before as they were. *)
Lemma store_pass (lines : list str) (h : Store.heap) :
  exists h',
    Store.parse_contents_file lines h
    = (Ok (Counter.most_common 10 (count_packages (tokens lines) Counter.new)), h')
    /\ Store.next h' = S (Store.next h)
    /\ forall a, (a < Store.next h)%nat -> Store.obj h' a = Store.obj h a.
Proof.
  unfold Store.parse_contents_file, Store.alloc.
  set (h0 := {| Store.next := S (Store.next h);
                Store.obj := fun a => if Nat.eqb a (Store.next h)
                                      then Counter.new else Store.obj h a |}).
  destruct (for_lines_at_spec lines (Store.next h) h0) as (h' & Hrun & Hn & Ha & Hf).
  exists h'. rewrite Hrun. split; [|split; [exact Hn|]].
  - rewrite Ha. unfold h0. cbn [Store.obj]. rewrite Nat.eqb_refl. reflexivity.
  - intros a Hlt. rewrite Hf by lia. unfold h0. cbn [Store.obj].
    destruct (Nat.eqb_spec a (Store.next h)); [lia | reflexivity].
Qed.

(** ** The claims *)

(** C1, as amended. Among packages whose final counts are equal, the
    ranked output follows the order of first appearance in the stream: if
    the first occurrence of [A] is earlier than that of [B], then whenever
    [B] is in the returned top ten, [A] is in it too, at an earlier
    position; and when the stream has at most ten distinct package
    identifiers, both are in it, [A] before [B]. *)
Theorem ties_follow_first_appearance
  (lines : list str) (A B : str) (c : Counter.t) (i j : nat) :
  for_lines lines Counter.new = Ok c ->
  Counter.getitem c A = Counter.getitem c B ->
  index A (tokens lines) = Some i ->
  index B (tokens lines) = Some j ->
  (i < j)%nat ->
  exists r,
    parse_contents_file lines = Ok r
    /\ (forall jb, index B (map fst r) = Some jb ->
          exists ia, index A (map fst r) = Some ia /\ (ia < jb)%nat)
    /\ ((length (nodup str_eq_dec (tokens lines)) <= 10)%nat ->
          exists ia jb,
            index A (map fst r) = Some ia /\ index B (map fst r) = Some jb
            /\ (ia < jb)%nat).
Proof.
  intros Hc Heq Hi Hj Hlt.
  rewrite for_lines_tokens in Hc. inversion Hc as [Hc']. clear Hc.
  rewrite parse_contents_file_tokens, Hc'.
  exists (Counter.most_common 10 c). split; [reflexivity|].
  pose proof (keys_nodup (tokens lines)) as Hnd. rewrite Hc' in Hnd.
  assert (Hfirst : forall jb,
             index B (map fst (Counter.most_common 10 c)) = Some jb ->
             exists ia, index A (map fst (Counter.most_common 10 c)) = Some ia
                        /\ (ia < jb)%nat).
  { intros jb Hjb.
    pose proof (keys_first_occurrence_order _ _ _ Hi Hj Hlt) as Hprec.
    rewrite Hc' in Hprec.
    apply precedes_map_fst in Hprec as (va & vb & Hprec).
    destruct (precedes_in Hprec) as [HinA HinB].
    pose proof (getitem_in _ _ _ Hnd HinA) as HvA.
    pose proof (getitem_in _ _ _ Hnd HinB) as HvB.
    assert (Hle : (snd (B, vb) <= snd (A, va))%Z) by (simpl; lia).
    pose proof (sorted_desc_stable Hle Hprec) as Hsorted.
    assert (Hnds : NoDup (Counter.sorted_desc c)).
    { apply (Permutation_NoDup (l := c)); [symmetry; apply sorted_desc_perm|].
      apply (NoDup_map_inv fst). exact Hnd. }
    assert (HB : In (B, vb) (Counter.most_common 10 c)).
    { apply index_in in Hjb. apply in_map_iff in Hjb as ([b' v'] & Hb' & Hin).
      simpl in Hb'. subst b'.
      pose proof (getitem_in _ _ _ Hnd (most_common_in _ _ _ Hin)) as Hv'.
      replace vb with v' by congruence. exact Hin. }
    pose proof (precedes_firstn 10 Hnds Hsorted HB) as Htop.
    destruct (precedes_index (most_common_keys_nodup 10 c Hnd) Htop)
      as (ia & jb' & Hia & Hjb' & Hlt').
    exists ia. split; [exact Hia|].
    rewrite Hjb' in Hjb. inversion Hjb; subst jb'. exact Hlt'. }
  split; [exact Hfirst|]. intros Hfew.
  assert (HB : In B (map fst (Counter.most_common 10 c))).
  { unfold Counter.most_common, Counter.items. rewrite firstn_all2.
    - assert (Hperm : Permutation (map fst c) (map fst (Counter.sorted_desc c))).
      { apply Permutation_map. symmetry. apply sorted_desc_perm. }
      apply (Permutation_in _ Hperm). rewrite <- Hc'.
      apply keys_count_packages_in. right.
      pose proof Hj as HjB. apply index_in in HjB. exact HjB.
    - rewrite (Permutation_length (sorted_desc_perm c)), <- Hc', counted_keys_length.
      exact Hfew. }
  apply in_index in HB as (jb & Hjb).
  destruct (Hfirst jb Hjb) as (ia & Hia & Hlt').
  exists ia, jb. repeat split; assumption.
Qed.

Lemma ties_follow_first_appearance_witness :
  exists r,
    parse_contents_file scenario = Ok r
    /\ (forall jb, index (lit "pkgC") (map fst r) = Some jb ->
          exists ia, index (lit "pkgB") (map fst r) = Some ia /\ (ia < jb)%nat)
    /\ ((length (nodup str_eq_dec (tokens scenario)) <= 10)%nat ->
          exists ia jb,
            index (lit "pkgB") (map fst r) = Some ia
            /\ index (lit "pkgC") (map fst r) = Some jb
            /\ (ia < jb)%nat).
Proof.
  apply (@ties_follow_first_appearance scenario (lit "pkgB") (lit "pkgC")
           [(lit "pkgA", 2%Z); (lit "pkgB", 1%Z); (lit "pkgC", 1%Z)] 1 2).
  - vm_compute. reflexivity.
  - vm_compute. reflexivity.
  - vm_compute. reflexivity.
  - vm_compute. reflexivity.
  - lia.
Defined.

(** C1, as stated, fails beyond the tenth rank. On the single line
    [f a,b,c,d,e,f,g,h,i,j,k,l] the twelve packages all end with count 1,
    [k] first occurs before [l], and the returned top ten holds neither of
    them: [k] does not appear before [l] in it. *)
Lemma ties_beyond_top_ten_counterexample :
  let lines := [lit "f a,b,c,d,e,f,g,h,i,j,k,l"] in
  exists c r,
    for_lines lines Counter.new = Ok c
    /\ Counter.getitem c (lit "k") = Counter.getitem c (lit "l")
    /\ index (lit "k") (tokens lines) = Some 10%nat
    /\ index (lit "l") (tokens lines) = Some 11%nat
    /\ parse_contents_file lines = Ok r
    /\ ~ (exists ia jb,
            index (lit "k") (map fst r) = Some ia
            /\ index (lit "l") (map fst r) = Some jb
            /\ (ia < jb)%nat).
Proof.
  cbv zeta. do 2 eexists.
  split; [vm_compute; reflexivity|].
  split; [vm_compute; reflexivity|].
  split; [vm_compute; reflexivity|].
  split; [vm_compute; reflexivity|].
  split; [vm_compute; reflexivity|].
  intros (ia & jb & Hia & _). vm_compute in Hia. discriminate Hia.
Qed.

(** C2. The final count of every package identifier [p] is the number of
    occurrences of [p] as a comma-separated token of the second field, summed
    over the lines of at least two fields, a token repeated within a line
    counting once per occurrence; the counts reported in the ranking are
    these. *)
Theorem final_count_is_occurrences (lines : list str) :
  exists c,
    for_lines lines Counter.new = Ok c /\
    (forall p, Counter.getitem c p = Z.of_nat (occurrences p lines)) /\
    exists r,
      parse_contents_file lines = Ok r /\
      Forall (fun e => snd e = Z.of_nat (occurrences (fst e) lines)) r.
Proof.
  exists (count_packages (tokens lines) Counter.new).
  split; [apply for_lines_tokens|].
  assert (Hget : forall p,
             Counter.getitem (count_packages (tokens lines) Counter.new) p
             = Z.of_nat (occurrences p lines)).
  { intros p. rewrite getitem_count_packages, occurrences_tokens. reflexivity. }
  split; [exact Hget|].
  eexists. split; [apply parse_contents_file_tokens|].
  apply Forall_forall. intros [k v] Hin. simpl.
  rewrite <- Hget. symmetry.
  apply getitem_in; [apply keys_nodup | apply (most_common_in _ _ _ Hin)].
Qed.

(** A token that is repeated within one line is counted every time. *)
Example repeated_token_counts_twice :
  parse_contents_file [lit "bin/a pkgA,pkgA"] = Ok [(lit "pkgA", 2%Z)].
Proof. vm_compute. reflexivity. Qed.

(** C3. The ranked sequence has exactly [min 10 n] entries, [n] being the
    number of distinct package identifiers seen in the stream. *)
Theorem result_length (lines : list str) :
  exists r,
    parse_contents_file lines = Ok r /\
    length r = Nat.min 10 (length (nodup str_eq_dec (tokens lines))).
Proof.
  eexists. split; [apply parse_contents_file_tokens|].
  unfold Counter.most_common, Counter.items.
  rewrite length_firstn. f_equal.
  rewrite (Permutation_length (sorted_desc_perm _)).
  rewrite <- (length_map fst).
  apply Permutation_length, NoDup_Permutation.
  - apply keys_nodup.
  - apply NoDup_nodup.
  - intros k. rewrite nodup_In, keys_count_packages_in. simpl. tauto.
Qed.

(** C4. The counts of the ranked sequence never increase from one entry to
    a later one. *)
Theorem result_counts_non_increasing (lines : list str) :
  exists r,
    parse_contents_file lines = Ok r /\ StronglySorted ge_count r.
Proof.
  eexists. split; [apply parse_contents_file_tokens|].
  apply firstn_sorted, sorted_desc_sorted.
Qed.

(** A line of fewer than two fields leaves the counter and the ranking as
    they were, wherever it stands in the stream. *)
Lemma short_line_contributes_nothing (pre post : list str) (line : str) :
  has_two_fields line = false ->
  for_lines (pre ++ line :: post) Counter.new = for_lines (pre ++ post) Counter.new
  /\ parse_contents_file (pre ++ line :: post) = parse_contents_file (pre ++ post).
Proof.
  intros H.
  assert (Ht : tokens (pre ++ line :: post) = tokens (pre ++ post)).
  { rewrite !tokens_app. f_equal. unfold tokens. simpl.
    unfold line_tokens at 1. rewrite H. reflexivity. }
  rewrite !parse_contents_file_tokens, !for_lines_tokens, Ht. split; reflexivity.
Qed.

(** C5. Lines of fewer than two whitespace-separated fields contribute to
    no count: the stream without them gives the same counter and the same
    ranked output. *)
Theorem short_lines_are_ignored (lines : list str) :
  for_lines (filter has_two_fields lines) Counter.new = for_lines lines Counter.new
  /\ parse_contents_file (filter has_two_fields lines) = parse_contents_file lines.
Proof.
  rewrite !parse_contents_file_tokens, !for_lines_tokens, tokens_filter.
  split; reflexivity.
Qed.

(** C6. The three lines of the literal scenario rank pkgA (2), then pkgB (1),
    then pkgC (1); the single-field line [bin/d] added to them changes
    nothing.  The same holds with the newline that ends each line of a text
    file. *)
Theorem literal_scenario :
  let expected := [(lit "pkgA", 2%Z); (lit "pkgB", 1%Z); (lit "pkgC", 1%Z)] in
  parse_contents_file scenario = Ok expected
  /\ parse_contents_file (scenario ++ [lit "bin/d"]) = Ok expected
  /\ parse_contents_file (map nl scenario) = Ok expected
  /\ parse_contents_file (map nl (scenario ++ [lit "bin/d"])) = Ok expected.
Proof. vm_compute. repeat split. Qed.

(** C7. The empty stream gives the empty ranking. *)
Theorem empty_stream : parse_contents_file [] = Ok [].
Proof. reflexivity. Qed.

(** C8. No stream makes the aggregation raise: it always returns a ranked
    sequence, and a line of fewer than two fields is passed over with the
    counter unchanged instead of being reported. *)
Theorem never_raises (lines : list str) :
  (exists r, parse_contents_file lines = Ok r)
  /\ (forall c line,
        process_line c line
        = Ok (if has_two_fields line
              then count_packages (split_on comma (nth 1 (fields line) [])) c
              else c)).
Proof.
  split.
  - eexists. apply parse_contents_file_tokens.
  - intros c line. rewrite process_line_tokens. unfold line_tokens.
    destruct (has_two_fields line); reflexivity.
Qed.

(** C9. Two independent passes over the same stream, the second one
    starting from the store that the first one left, both return, and they
    return the same ranked sequence: the same pairs in the same order.  Each
    pass counts in an object of its own: the second one changes nothing
    that existed when it started, the counter of the first included, and
    what it returns is what the function returns on the lines alone. *)
Theorem two_passes_agree (lines : list str) (h : Store.heap) :
  exists r h1 h2,
    Store.parse_contents_file lines h = (Ok r, h1)
    /\ Store.parse_contents_file lines h1 = (Ok r, h2)
    /\ (forall a, (a < Store.next h1)%nat -> Store.obj h2 a = Store.obj h1 a)
    /\ parse_contents_file lines = Ok r.
Proof.
  destruct (store_pass lines h) as (h1 & Hrun1 & _ & _).
  destruct (store_pass lines h1) as (h2 & Hrun2 & _ & Hframe).
  exists (Counter.most_common 10 (count_packages (tokens lines) Counter.new)), h1, h2.
  split; [exact Hrun1|]. split; [exact Hrun2|]. split; [exact Hframe|].
  apply parse_contents_file_tokens.
Qed.

(** C10. An empty token, as a trailing or a doubled comma produces, is a
    package identifier like any other: it is counted under the empty string
    and can be ranked. *)
Theorem empty_token_is_counted :
  split_on comma (lit "pkgA,") = [lit "pkgA"; []]
  /\ (forall s, split_on comma (s ++ [comma]) = split_on comma s ++ [[]])
  /\ (forall s1 s2,
        split_on comma (s1 ++ comma :: comma :: s2)
        = split_on comma s1 ++ [] :: split_on comma s2)
  /\ (forall lines,
        exists c, for_lines lines Counter.new = Ok c
                  /\ Counter.getitem c [] = Z.of_nat (occurrences [] lines))
  /\ parse_contents_file [lit "bin/a pkgA,"] = Ok [(lit "pkgA", 1%Z); ([], 1%Z)].
Proof.
  split; [vm_compute; reflexivity|].
  split; [intros s; apply split_on_sep|].
  split.
  { intros s1 s2. rewrite split_on_sep.
    change (comma :: s2) with ([] ++ comma :: s2).
    rewrite split_on_sep. reflexivity. }
  split; [|vm_compute; reflexivity].
  intros lines. eexists. split; [apply for_lines_tokens|].
  rewrite getitem_count_packages, occurrences_tokens. reflexivity.
Qed.

(** ** Further properties of [parse_contents_file] *)

Lemma sorted_app_ge (l1 l2 : list (str * Z)) (x y : str * Z) :
  StronglySorted ge_count (l1 ++ l2) -> In x l1 -> In y l2 -> ge_count x y.
Proof.
  induction l1 as [|a l1 IH]; simpl; intros Hs Hx Hy; [contradiction|].
  inversion Hs as [|? ? Hs' Ha]; subst.
  destruct Hx as [->|Hx]; [|exact (IH Hs' Hx Hy)].
  rewrite Forall_forall in Ha. apply Ha. apply in_app_iff. right. exact Hy.
Qed.

Lemma counted_keys_positive (toks : list str) (k : str) (v : Z) :
  In (k, v) (count_packages toks Counter.new) -> (1 <= v)%Z /\ In k toks.
Proof.
  intros Hin.
  assert (Hk : In k toks).
  { apply (in_map fst) in Hin. apply keys_count_packages_in in Hin as [[]|H]. exact H. }
  split; [|exact Hk].
  rewrite <- (getitem_in _ _ _ (keys_nodup toks) Hin), getitem_count_packages.
  simpl. apply (count_occ_In str_eq_dec) in Hk. lia.
Qed.

(** The ranking keeps the largest counts: a package that is left out of
    the returned sequence has a final count no larger than the count of any
    entry that is returned. *)
Theorem omitted_packages_rank_no_higher
  (lines : list str) (c : Counter.t) (r : list (str * Z)) (p : str) (e : str * Z) :
  for_lines lines Counter.new = Ok c ->
  parse_contents_file lines = Ok r ->
  ~ In p (map fst r) ->
  In e r ->
  (Counter.getitem c p <= snd e)%Z.
Proof.
  rewrite for_lines_tokens, parse_contents_file_tokens.
  intros Hc Hr Hp He. injection Hc as <-. injection Hr as <-.
  set (c := count_packages (tokens lines) Counter.new) in *.
  destruct (in_dec str_eq_dec p (map fst c)) as [Hin|Hout].
  - apply in_map_iff in Hin as ([p' v] & Hp' & Hin). simpl in Hp'. subst p'.
    assert (Hnd : NoDup (map fst c)) by apply keys_nodup.
    rewrite (getitem_in _ _ _ Hnd Hin).
    assert (Hs : In (p, v) (Counter.sorted_desc c))
      by (apply (Permutation_in _ (Permutation_sym (sorted_desc_perm c))); exact Hin).
    rewrite <- (firstn_skipn 10 (Counter.sorted_desc c)) in Hs.
    apply in_app_iff in Hs as [Hs|Hs].
    + exfalso. apply Hp. apply (in_map fst) in Hs. exact Hs.
    + assert (Hsorted := sorted_desc_sorted c).
      rewrite <- (firstn_skipn 10 (Counter.sorted_desc c)) in Hsorted.
      exact (@sorted_app_ge _ _ e (p, v) Hsorted He Hs).
  - assert (H0 : Counter.getitem c p = 0%Z).
    { unfold c. rewrite getitem_count_packages. simpl.
      rewrite (proj1 (count_occ_not_In str_eq_dec (tokens lines) p)); [reflexivity|].
      intros H. apply Hout. apply keys_count_packages_in. right. exact H. }
    rewrite H0. destruct e as [k v]. simpl.
    apply most_common_in in He.
    apply counted_keys_positive in He. lia.
Qed.

Lemma omitted_packages_rank_no_higher_witness :
  (Counter.getitem
     (count_packages (tokens [lit "f a,b,c,d,e,f,g,h,i,j,k"; lit "f k,k"]) Counter.new)
     (lit "j")
   <= snd (lit "a", 1%Z))%Z.
Proof.
  apply (@omitted_packages_rank_no_higher
           [lit "f a,b,c,d,e,f,g,h,i,j,k"; lit "f k,k"] _
           [(lit "k", 3%Z); (lit "a", 1%Z); (lit "b", 1%Z); (lit "c", 1%Z);
            (lit "d", 1%Z); (lit "e", 1%Z); (lit "f", 1%Z); (lit "g", 1%Z);
            (lit "h", 1%Z); (lit "i", 1%Z)]).
  - vm_compute. reflexivity.
  - vm_compute. reflexivity.
  - vm_compute. intros H. repeat (destruct H as [H|H]; [discriminate H|]). exact H.
  - right. left. reflexivity.
Defined.

(** Every returned entry is a package that occurs in the stream, with a
    count of at least one, and no package is returned twice. *)
Theorem result_entries_are_seen_packages (lines : list str) :
  exists r,
    parse_contents_file lines = Ok r
    /\ NoDup (map fst r)
    /\ Forall (fun e => (1 <= snd e)%Z /\ In (fst e) (tokens lines)) r.
Proof.
  eexists. split; [apply parse_contents_file_tokens|]. split.
  - apply most_common_keys_nodup, keys_nodup.
  - apply Forall_forall. intros [k v] Hin. simpl.
    apply most_common_in in Hin. exact (counted_keys_positive _ _ _ Hin).
Qed.

Lemma forallb_rev (A : Type) (f : A -> bool) (l : list A) :
  forallb f l = true -> forallb f (rev l) = true.
Proof.
  rewrite !forallb_forall. intros H x Hx. apply H, in_rev, Hx.
Qed.

Lemma split_from_fields (s : str) :
  forall w,
    forallb (fun ch => negb (isspace ch)) w = true ->
    Forall (fun f => f <> [] /\ forallb (fun ch => negb (isspace ch)) f = true)
      (split_from w s).
Proof.
  induction s as [|c s IH]; intros w Hw; simpl.
  - destruct w as [|a w]; constructor; [|constructor].
    split; [|apply forallb_rev, Hw].
    simpl. intros H. apply app_eq_nil in H as [_ H]. discriminate.
  - destruct (isspace c) eqn:Hc.
    + destruct w as [|a w]; [apply IH; reflexivity|].
      constructor; [|apply IH; reflexivity].
      split; [|apply forallb_rev, Hw].
      simpl. intros H. apply app_eq_nil in H as [_ H]. discriminate.
    + apply IH. simpl. rewrite Hc. exact Hw.
Qed.

Lemma split_on_pieces (sep : char) (s : str) :
  Forall (fun w => forall ch, In ch w -> In ch s /\ ch <> sep) (split_on sep s).
Proof.
  induction s as [|c s IH]; simpl.
  - constructor; [intros ch []|constructor].
  - destruct (c =? sep)%N eqn:Hc.
    + constructor; [intros ch []|].
      eapply Forall_impl; [|exact IH]. simpl. intros w H ch Hch.
      destruct (H ch Hch). split; [right|]; assumption.
    + apply N.eqb_neq in Hc.
      destruct (split_on sep s) as [|w ws]; [constructor; [|constructor]|].
      * intros ch [<-|[]]. split; [left; reflexivity | exact Hc].
      * inversion IH as [|? ? Hw Hws]; subst. constructor.
        -- intros ch [<-|Hch]; [split; [left; reflexivity | exact Hc]|].
           destruct (Hw ch Hch). split; [right|]; assumption.
        -- eapply Forall_impl; [|exact Hws]. simpl. intros w' H ch Hch.
           destruct (H ch Hch). split; [right|]; assumption.
Qed.

Lemma tokens_clean (lines : list str) (t : str) :
  In t (tokens lines) -> clean t = true.
Proof.
  unfold tokens. rewrite in_flat_map. intros (line & _ & Ht).
  unfold line_tokens, has_two_fields, fields in Ht.
  destruct (2 <=? length (split line)) eqn:H2; [|contradiction].
  apply Nat.leb_le in H2.
  assert (Hf : forallb (fun ch => negb (isspace ch)) (nth 1 (split line) []) = true).
  { pose proof (split_from_fields line [] eq_refl) as HF.
    rewrite Forall_forall in HF. apply HF. apply nth_In. exact H2. }
  pose proof (split_on_pieces comma (nth 1 (split line) [])) as HP.
  rewrite Forall_forall in HP. specialize (HP t Ht).
  unfold clean. apply forallb_forall. intros ch Hch.
  destruct (HP ch Hch) as [Hin Hne].
  rewrite forallb_forall in Hf. rewrite (Hf ch Hin). simpl.
  apply negb_true_iff, N.eqb_neq, Hne.
Qed.

(** No returned package identifier contains a whitespace code point or a
    comma. *)
Theorem result_packages_are_clean (lines : list str) :
  exists r,
    parse_contents_file lines = Ok r
    /\ Forall (fun e => clean (fst e) = true) r.
Proof.
  eexists. split; [apply parse_contents_file_tokens|].
  apply Forall_forall. intros [k v] Hin. simpl.
  apply most_common_in, counted_keys_positive in Hin.
  exact (tokens_clean _ _ (proj2 Hin)).
Qed.

Lemma split_from_leading_spaces (ws s : str) :
  forallb isspace ws = true -> split_from [] (ws ++ s) = split_from [] s.
Proof.
  induction ws as [|c ws IH]; simpl; intros H; [reflexivity|].
  apply andb_true_iff in H as [Hc Hws]. rewrite Hc. apply IH, Hws.
Qed.

(** Whitespace before and after a line, its newline included, does not
    change what the line adds to the counter. *)
Theorem surrounding_whitespace_is_irrelevant
  (c : Counter.t) (before line after : str) :
  forallb isspace before = true ->
  forallb isspace after = true ->
  process_line c (before ++ line ++ after) = process_line c line.
Proof.
  intros Hb Ha. rewrite !process_line_tokens. f_equal. f_equal.
  unfold line_tokens, has_two_fields, fields, split.
  rewrite split_from_leading_spaces by assumption.
  rewrite split_from_app_spaces by assumption. reflexivity.
Qed.

Lemma surrounding_whitespace_is_irrelevant_witness :
  process_line [(lit "pkgA", 1%Z)] (lit "  " ++ lit "bin/b   pkgB,pkgC" ++ nl (lit " "))
  = process_line [(lit "pkgA", 1%Z)] (lit "bin/b   pkgB,pkgC").
Proof.
  apply surrounding_whitespace_is_irrelevant; vm_compute; reflexivity.
Defined.

(** Only the second field of a line is looked at: two lines with the same
    second field, or both without one, add the same to the counter, whatever
    their first field and their further fields are. *)
Theorem only_second_field_matters (c : Counter.t) (line1 line2 : str) :
  nth_error (fields line1) 1 = nth_error (fields line2) 1 ->
  process_line c line1 = process_line c line2.
Proof.
  intros H. rewrite !process_line_tokens. f_equal. f_equal.
  unfold line_tokens, has_two_fields.
  destruct (fields line1) as [|a1 [|b1 l1]], (fields line2) as [|a2 [|b2 l2]];
    simpl in *; try reflexivity; try discriminate.
  inversion H. reflexivity.
Qed.

Lemma only_second_field_matters_witness :
  process_line Counter.new (lit "usr/bin/foo admin/sudo,utils/bar extra fields")
  = process_line Counter.new (lit "x   admin/sudo,utils/bar").
Proof.
  apply only_second_field_matters. vm_compute. reflexivity.
Defined.

(** Counting composes: the final count of a package over two streams put
    one after the other is the sum of its final counts over each. *)
Theorem counts_add_over_concatenation (lines1 lines2 : list str) (p : str) :
  exists c1 c2 c,
    for_lines lines1 Counter.new = Ok c1
    /\ for_lines lines2 Counter.new = Ok c2
    /\ for_lines (lines1 ++ lines2) Counter.new = Ok c
    /\ Counter.getitem c p = (Counter.getitem c1 p + Counter.getitem c2 p)%Z.
Proof.
  do 3 eexists. repeat split; try apply for_lines_tokens.
  rewrite !getitem_count_packages, tokens_app, count_occ_app. simpl. lia.
Qed.

(** ** The architecture list *)

Section Architectures.

Lemma startswith_decompose (s prefix : str) :
  Str.startswith s prefix = true -> exists rest, s = prefix ++ rest.
Proof.
  unfold Str.startswith.
  destruct (str_eq_dec (firstn (length prefix) s) prefix) as [E|]; [|discriminate].
  intros _. exists (skipn (length prefix) s).
  rewrite <- E at 1. symmetry. apply firstn_skipn.
Qed.

Lemma startswith_app (prefix rest : str) :
  Str.startswith (prefix ++ rest) prefix = true.
Proof.
  unfold Str.startswith.
  rewrite firstn_app, Nat.sub_diag, firstn_all, firstn_O, app_nil_r.
  destruct (str_eq_dec prefix prefix); [reflexivity | congruence].
Qed.

(** The field that [href.split('-')[1]] reads, for an [href] that starts
    with [binary-]. *)
Lemma binary_href_field (rest : str) :
  nth_error (split_on Str.dash (lit "binary-" ++ rest)) 1
  = Some (hd [] (split_on Str.dash rest)).
Proof.
  change (lit "binary-" ++ rest) with (lit "binary" ++ Str.dash :: rest).
  rewrite split_on_sep.
  change (split_on Str.dash (lit "binary")) with [lit "binary"].
  simpl. destruct (split_on Str.dash rest) as [|w ws] eqn:H; [|reflexivity].
  exfalso. exact (split_on_nonempty _ _ H).
Qed.

Lemma lstrip_chars_head (chars s : str) :
  match Str.lstrip_chars chars s with
  | [] => True
  | c :: _ => existsb (N.eqb c) chars = false
  end.
Proof.
  induction s as [|c s IH]; simpl; [exact I|].
  destruct (existsb (N.eqb c) chars) eqn:H; [exact IH | exact H].
Qed.

Lemma lstrip_chars_suffix (chars s : str) :
  exists gone, s = gone ++ Str.lstrip_chars chars s.
Proof.
  induction s as [|c s (gone & IH)]; simpl; [exists []; reflexivity|].
  destruct (existsb (N.eqb c) chars).
  - exists (c :: gone). simpl. congruence.
  - exists []. reflexivity.
Qed.

Lemma rstrip_chars_prefix (chars s : str) :
  exists gone, s = Str.rstrip_chars chars s ++ gone.
Proof.
  destruct (lstrip_chars_suffix chars (rev s)) as (gone & H).
  exists (rev gone). unfold Str.rstrip_chars.
  rewrite <- rev_app_distr, <- H, rev_involutive. reflexivity.
Qed.

Lemma rstrip_slash_last (s init : str) :
  Str.rstrip_chars [Str.slash] s <> init ++ [Str.slash].
Proof.
  unfold Str.rstrip_chars. intros H.
  apply (f_equal (@rev char)) in H. rewrite rev_involutive, rev_app_distr in H.
  simpl in H. pose proof (lstrip_chars_head [Str.slash] (rev s)) as Hh.
  rewrite H in Hh. discriminate Hh.
Qed.

Lemma lstrip_chars_keeps (chars s : str) (c : char) :
  existsb (N.eqb c) chars = false -> Str.lstrip_chars chars (c :: s) = c :: s.
Proof. intros H. simpl. rewrite H. reflexivity. Qed.

End Architectures.

Lemma for_links_outcome (hrefs : list (option str)) :
  forall acc,
    Web.for_links hrefs acc <> Web.Raises Web.IndexError
    /\ (Web.for_links hrefs acc = Web.Raises Web.AttributeError <-> In None hrefs).
Proof.
  induction hrefs as [|[href|] hrefs IH]; intros acc; cbn [Web.for_links].
  - split; [discriminate|]. simpl. split; [discriminate | intros []].
  - assert (Hsome : forall A : Prop, (A <-> In None hrefs)
                                     -> (A <-> In None (Some href :: hrefs))).
    { intros A HA. simpl. rewrite HA. split; [tauto|]. intros [H|H]; [discriminate | exact H]. }
    destruct (Str.startswith href (lit "binary-")) eqn:Hs.
    + apply startswith_decompose in Hs as (rest & ->).
      rewrite binary_href_field.
      destruct (str_eq_dec _ (lit "all"));
        (split; [apply IH | apply Hsome, IH]).
    + split; [apply IH | apply Hsome, IH].
  - split; [discriminate|]. split; [intros _; left; reflexivity | reflexivity].
Qed.

(** Scraping never fails on the index [1] of [href.split('-')], and it
    raises [AttributeError] exactly when some anchor of the page has no
    [href]; in every other case it returns a list. *)
Theorem architectures_raise_only_on_missing_href (hrefs : list (option str)) :
  let run := Web.get_supported_architectures (Web.Anchors hrefs) in
  run <> Web.Raises Web.IndexError
  /\ (run = Web.Raises Web.AttributeError <-> In None hrefs)
  /\ ((exists architectures, run = Web.Returns architectures) <-> ~ In None hrefs).
Proof.
  simpl. destruct (for_links_outcome hrefs []) as [Hi Ha].
  split; [exact Hi|]. split; [exact Ha|].
  destruct (Web.for_links hrefs []) as [a|[|]] eqn:H.
  - split; [|intros _; exists a; reflexivity].
    intros _ Hin. apply Ha in Hin. discriminate.
  - split; [intros (a & Ha'); discriminate|].
    intros Hn. exfalso. apply Hn, Ha. reflexivity.
  - contradiction Hi. reflexivity.
Qed.

Lemma for_links_ok (hrefs : list (option str)) :
  forall acc archs,
    Forall architecture_ok acc ->
    Web.for_links hrefs acc = Web.Returns archs ->
    Forall architecture_ok archs.
Proof.
  induction hrefs as [|[href|] hrefs IH]; intros acc archs Hacc; cbn [Web.for_links].
  - intros H. inversion H; subst. exact Hacc.
  - destruct (Str.startswith href (lit "binary-")) eqn:Hs; [|apply IH, Hacc].
    apply startswith_decompose in Hs as (rest & ->).
    rewrite binary_href_field.
    set (field := hd [] (split_on Str.dash rest)).
    destruct (str_eq_dec (Str.rstrip_chars [Str.slash] field) (lit "all")) as [E|N];
      [apply IH, Hacc|].
    apply IH. apply Forall_app. split; [exact Hacc|].
    constructor; [|constructor]. split; [exact N|]. split; [|apply rstrip_slash_last].
    intros Hd. destruct (rstrip_chars_prefix [Str.slash] field) as (gone & Hg).
    assert (Hf : In Str.dash field) by (rewrite Hg; apply in_app_iff; left; exact Hd).
    pose proof (split_on_pieces Str.dash rest) as HP.
    unfold field in Hf. destruct (split_on Str.dash rest) as [|w ws]; [exact Hf|].
    inversion HP as [|? ? Hw _]; subst. simpl in Hf.
    destruct (Hw _ Hf) as [_ Hne]. apply Hne. reflexivity.
  - discriminate.
Qed.

(** The returned list never holds [all], and none of its entries contains
    a dash or ends with a slash. *)
Theorem architectures_are_well_formed (response : Web.page) (architectures : list str) :
  Web.get_supported_architectures response = Web.Returns architectures ->
  Forall architecture_ok architectures.
Proof.
  destruct response as [|hrefs]; simpl.
  - intros H. inversion H. constructor.
  - apply for_links_ok. constructor.
Qed.

Lemma architectures_are_well_formed_witness :
  Forall architecture_ok [lit "amd64"; lit "arm64"].
Proof.
  apply (@architectures_are_well_formed
           (Web.Anchors [Some (lit "../"); Some (lit "binary-all/");
                         Some (lit "binary-amd64/"); Some (lit "binary-arm64/");
                         Some (lit "source/")])).
  vm_compute. reflexivity.
Defined.

Lemma split_on_no_sep (sep : char) (s : str) :
  ~ In sep s -> split_on sep s = [s].
Proof.
  induction s as [|c s IH]; simpl; intros H; [reflexivity|].
  destruct (c =? sep)%N eqn:Hc.
  - apply N.eqb_eq in Hc. exfalso. apply H. left. exact Hc.
  - rewrite IH by (intros Hin; apply H; right; exact Hin). reflexivity.
Qed.

Lemma lstrip_chars_repeat (c : char) (n : nat) (s : str) :
  Str.lstrip_chars [c] (repeat c n ++ s) = Str.lstrip_chars [c] s.
Proof.
  induction n as [|n IH]; [reflexivity|].
  cbn [repeat app Str.lstrip_chars existsb]. rewrite N.eqb_refl. exact IH.
Qed.

Lemma rstrip_trailing_slashes (a : str) (n : nat) :
  (forall init, a <> init ++ [Str.slash]) ->
  Str.rstrip_chars [Str.slash] (a ++ repeat Str.slash n) = a.
Proof.
  intros Ha. unfold Str.rstrip_chars.
  rewrite rev_app_distr, rev_repeat, lstrip_chars_repeat.
  destruct (rev a) as [|c ra] eqn:Hr; [|].
  - apply (f_equal (@rev char)) in Hr. rewrite rev_involutive in Hr. subst a. reflexivity.
  - assert (Hc : existsb (N.eqb c) [Str.slash] = false).
    { simpl. rewrite orb_false_r. apply N.eqb_neq. intros ->.
      apply (Ha (rev ra)). rewrite <- (rev_involutive a), Hr. reflexivity. }
    rewrite (lstrip_chars_keeps _ _ _ Hc), <- Hr. apply rev_involutive.
Qed.

Lemma for_links_listed (a : str) (n : nat) (hrefs : list (option str)) :
  architecture_ok a ->
  forall acc archs,
    Web.for_links hrefs acc = Web.Returns archs ->
    In a acc \/ In (Some (lit "binary-" ++ a ++ repeat Str.slash n)) hrefs ->
    In a archs.
Proof.
  intros (Hall & Hdash & Hslash).
  induction hrefs as [|[href|] hrefs IH]; intros acc archs; cbn [Web.for_links].
  - intros H [Hin|[]]. inversion H; subst. exact Hin.
  - intros H Hin.
    assert (Hhere : href = lit "binary-" ++ a ++ repeat Str.slash n \/
                    (In a acc \/ In (Some (lit "binary-" ++ a ++ repeat Str.slash n)) hrefs)).
    { destruct Hin as [Hin|[Hin|Hin]]; [tauto | inversion Hin; tauto | tauto]. }
    clear Hin. destruct Hhere as [->|Hrest].
    + rewrite startswith_app, binary_href_field in H.
      rewrite split_on_no_sep in H.
      2:{ intros Hin. apply in_app_iff in Hin as [Hin|Hin]; [exact (Hdash Hin)|].
          apply repeat_spec in Hin. discriminate Hin. }
      cbn [hd] in H. rewrite rstrip_trailing_slashes in H by exact Hslash.
      destruct (str_eq_dec a (lit "all")) as [E|_]; [contradiction|].
      apply (IH _ _ H). left. apply in_app_iff. right. left. reflexivity.
    + destruct (Str.startswith href (lit "binary-")); [|exact (IH _ _ H Hrest)].
      destruct (nth_error (split_on Str.dash href) 1) as [field|]; [|discriminate].
      destruct (str_eq_dec (Str.rstrip_chars [Str.slash] field) (lit "all"));
        [exact (IH _ _ H Hrest)|].
      apply (IH _ _ H). destruct Hrest as [Hacc|Hr]; [left | right; exact Hr].
      apply in_app_iff. left. exact Hacc.
  - discriminate.
Qed.

(** Every directory [binary-<a>], with or without trailing slashes, whose
    name [a] is not [all], has no dash and does not end with a slash, puts
    [a] on the returned list. *)
Theorem binary_directories_are_listed
  (hrefs : list (option str)) (architectures : list str) (a : str) (n : nat) :
  Web.get_supported_architectures (Web.Anchors hrefs) = Web.Returns architectures ->
  In (Some (lit "binary-" ++ a ++ repeat Str.slash n)) hrefs ->
  architecture_ok a ->
  In a architectures.
Proof.
  intros Hrun Hin Hok.
  apply (@for_links_listed a n hrefs Hok [] architectures Hrun). right. exact Hin.
Qed.

Lemma binary_directories_are_listed_witness :
  In (lit "arm64") [lit "amd64"; lit "arm64"].
Proof.
  apply (@binary_directories_are_listed
           [Some (lit "../"); Some (lit "binary-all/");
            Some (lit "binary-amd64/"); Some (lit "binary-arm64/");
            Some (lit "source/")] _ (lit "arm64") 1).
  - vm_compute. reflexivity.
  - vm_compute. tauto.
  - unfold architecture_ok. split; [discriminate|]. split.
    + vm_compute. intros H. repeat (destruct H as [H|H]; [discriminate H|]). exact H.
    + intros init H. apply (f_equal (@rev char)) in H.
      rewrite rev_app_distr in H. vm_compute in H. discriminate H.
Defined.

(** ** Compressed and decompressed paths *)

Section Paths.

Lemma remove_gz_here (s : str) : Path.remove_gz (lit ".gz" ++ s) = Path.remove_gz s.
Proof. reflexivity. Qed.

Lemma remove_gz_app_gz_bounded (n : nat) :
  forall a b,
    (length a <= n)%nat ->
    Path.remove_gz (a ++ lit ".gz" ++ b) = Path.remove_gz a ++ Path.remove_gz b.
Proof.
  induction n as [|n IH]; intros a b Hlen.
  - destruct a; [reflexivity | simpl in Hlen; lia].
  - destruct a as [|c [|c2 [|c3 a3]]].
    + reflexivity.
    + change (Path.remove_gz ([c] ++ lit ".gz" ++ b))
        with (if ((c =? 46) && false && false)%N
              then Path.remove_gz (122%N :: b)
              else c :: Path.remove_gz (lit ".gz" ++ b)).
      rewrite !andb_false_r. reflexivity.
    + change (Path.remove_gz ([c; c2] ++ lit ".gz" ++ b))
        with (if ((c =? 46) && (c2 =? 103) && false)%N
              then Path.remove_gz (lit "gz" ++ b)
              else c :: Path.remove_gz ([c2] ++ lit ".gz" ++ b)).
      rewrite andb_false_r, (IH [c2] b) by (simpl in *; lia). reflexivity.
    + change (Path.remove_gz ((c :: c2 :: c3 :: a3) ++ lit ".gz" ++ b))
        with (if ((c =? 46) && (c2 =? 103) && (c3 =? 122))%N
              then Path.remove_gz (a3 ++ lit ".gz" ++ b)
              else c :: Path.remove_gz ((c2 :: c3 :: a3) ++ lit ".gz" ++ b)).
      change (Path.remove_gz (c :: c2 :: c3 :: a3))
        with (if ((c =? 46) && (c2 =? 103) && (c3 =? 122))%N
              then Path.remove_gz a3
              else c :: Path.remove_gz (c2 :: c3 :: a3)).
      simpl in Hlen.
      destruct ((c =? 46) && (c2 =? 103) && (c3 =? 122))%N.
      * apply IH. lia.
      * rewrite IH by (simpl; lia). reflexivity.
Qed.

Lemma remove_gz_unchanged (s : str) :
  Path.contains_gz s = false -> Path.remove_gz s = s.
Proof.
  induction s as [|c s IH]; [reflexivity|].
  cbn [Path.contains_gz]. intros H. apply orb_false_iff in H as [Hhere Hrest].
  specialize (IH Hrest).
  destruct s as [|c2 [|c3 s3]]; try (simpl in *; congruence).
  change (Path.remove_gz (c :: c2 :: c3 :: s3))
    with (if ((c =? 46) && (c2 =? 103) && (c3 =? 122))%N
          then Path.remove_gz s3
          else c :: Path.remove_gz (c2 :: c3 :: s3)).
  destruct ((c =? 46) && (c2 =? 103) && (c3 =? 122))%N eqn:Hm; [|congruence].
  apply andb_true_iff in Hm as [Hm H3]. apply andb_true_iff in Hm as [H1 H2].
  apply N.eqb_eq in H1, H2, H3. subst. discriminate Hhere.
Qed.

Lemma contains_gz_length (s : str) :
  Path.contains_gz s = true -> (3 <= length s)%nat.
Proof.
  induction s as [|c s IH]; [discriminate|].
  cbn [Path.contains_gz]. intros H. apply orb_true_iff in H as [H|H].
  - apply startswith_decompose in H as (r & ->). simpl. lia.
  - specialize (IH H). simpl. lia.
Qed.

Lemma remove_gz_shorter_bounded (n : nat) :
  forall s,
    (length s <= n)%nat ->
    (length (Path.remove_gz s) <= length s)%nat
    /\ (Path.contains_gz s = true -> (length (Path.remove_gz s) + 3 <= length s)%nat).
Proof.
  induction n as [|n IH]; intros s Hlen.
  - destruct s; [|simpl in Hlen; lia]. split; [reflexivity | discriminate].
  - destruct s as [|c [|c2 [|c3 s3]]].
    + split; [reflexivity | discriminate].
    + split; [reflexivity|]. intros H. apply contains_gz_length in H. simpl in H. lia.
    + split; [reflexivity|]. intros H. apply contains_gz_length in H. simpl in H. lia.
    + change (Path.remove_gz (c :: c2 :: c3 :: s3))
        with (if ((c =? 46) && (c2 =? 103) && (c3 =? 122))%N
              then Path.remove_gz s3
              else c :: Path.remove_gz (c2 :: c3 :: s3)).
      simpl in Hlen.
      destruct (IH s3 ltac:(lia)) as [H3 _].
      destruct (IH (c2 :: c3 :: s3) ltac:(simpl; lia)) as [H1 H1'].
      destruct ((c =? 46) && (c2 =? 103) && (c3 =? 122))%N eqn:Hm.
      * simpl. split; [lia | intros _; lia].
      * split; [simpl in *; lia|].
        cbn [Path.contains_gz]. intros H. apply orb_true_iff in H as [H|H].
        -- exfalso. unfold Str.startswith in H.
           destruct (str_eq_dec _ _) as [E|]; [|discriminate].
           inversion E. subst. vm_compute in Hm. discriminate Hm.
        -- specialize (H1' H). simpl in *. lia.
Qed.

Lemma contains_gz_app (a b : str) :
  Path.contains_gz b = true -> Path.contains_gz (a ++ b) = true.
Proof.
  intros H. induction a as [|c a IH]; [exact H|].
  cbn [app Path.contains_gz]. rewrite IH. apply orb_true_r.
Qed.

End Paths.

Lemma remove_gz_fixed_iff (s : str) :
  Path.remove_gz s = s <-> Path.contains_gz s = false.
Proof.
  destruct (remove_gz_shorter_bounded (n := length s) s (le_n _)) as [Hle Hlt].
  split; [|apply remove_gz_unchanged].
  intros H. destruct (Path.contains_gz s); [|reflexivity].
  specialize (Hlt eq_refl). rewrite H in Hlt. lia.
Qed.

(** The removal takes every [.gz] of a path, wherever it stands, not only
    the extension: around an occurrence, the two sides are treated on their
    own. *)
Theorem remove_gz_takes_every_occurrence (a b : str) :
  Path.remove_gz (a ++ lit ".gz" ++ b) = Path.remove_gz a ++ Path.remove_gz b.
Proof. apply (remove_gz_app_gz_bounded (n := length a)). reflexivity. Qed.

(** The removal leaves a path as it is exactly when the path has no [.gz]
    in it: on such a path [decompress_gzip] computes an output path equal to
    its input path.  It never makes a path longer. *)
Theorem remove_gz_fixes_only_paths_without_gz (s : str) :
  (Path.remove_gz s = s <-> Path.contains_gz s = false)
  /\ (length (Path.remove_gz s) <= length s)%nat.
Proof.
  split; [apply remove_gz_fixed_iff|].
  apply (remove_gz_shorter_bounded (n := length s) s (le_n _)).
Qed.

Lemma join_suffix (a b : str) : exists prefix, Path.join a b = prefix ++ b.
Proof.
  unfold Path.join. destruct (Str.startswith b (lit "/")); [exists []; reflexivity|].
  destruct a as [|c a]; [exists []; reflexivity|].
  destruct (Path.ends_with_slash (c :: a)).
  - exists (c :: a). reflexivity.
  - exists ((c :: a) ++ lit "/"). rewrite <- app_assoc. reflexivity.
Qed.

(** Whatever the script directory and the architecture are, the path that
    [main] decompresses to differs from the path it downloads to, so the
    decompressor never writes over the file it reads. *)
Theorem decompressed_file_is_not_destination (script_directory architecture : str) :
  Path.decompressed_file script_directory architecture
  <> Path.destination script_directory architecture.
Proof.
  unfold Path.decompressed_file. intros H.
  apply remove_gz_fixed_iff in H.
  unfold Path.destination, Path.file_name in H.
  destruct (join_suffix script_directory (lit "Contents-" ++ architecture ++ lit ".gz"))
    as (prefix & Hp).
  rewrite Hp, !app_assoc, contains_gz_app in H; [discriminate | reflexivity].
Qed.

(** No [.gz] appears across the seam of two strings when the left one does
    not end with [.] or [g], or the right one does not start with [g] or
    [z]. *)
Lemma contains_gz_app_false (a b : str) :
  Path.contains_gz a = false ->
  Path.contains_gz b = false ->
  (forall init c, a = init ++ [c] -> c <> 46%N /\ c <> 103%N)
  \/ (forall c r, b = c :: r -> c <> 103%N /\ c <> 122%N) ->
  Path.contains_gz (a ++ b) = false.
Proof.
  induction a as [|c a IH]; intros Ha Hb Hseam; [exact Hb|].
  cbn [Path.contains_gz] in Ha. apply orb_false_iff in Ha as [Hhere Hrest].
  cbn [app Path.contains_gz]. apply orb_false_iff. split.
  - destruct (Str.startswith (c :: a ++ b) (lit ".gz")) eqn:Hs; [|reflexivity].
    exfalso. apply startswith_decompose in Hs as (r & Hr).
    destruct a as [|c2 [|c3 a3]]; simpl in Hr; inversion Hr; subst.
    + destruct Hseam as [H|H].
      * destruct (H [] 46%N eq_refl) as [H1 _]. apply H1. reflexivity.
      * destruct (H _ _ eq_refl) as [H1 _]. apply H1. reflexivity.
    + destruct Hseam as [H|H].
      * destruct (H [46%N] 103%N eq_refl) as [_ H1]. apply H1. reflexivity.
      * destruct (H _ _ eq_refl) as [_ H1]. apply H1. reflexivity.
    + exact (eq_true_false_abs _ (startswith_app (lit ".gz") a3) Hhere).
  - apply IH; [exact Hrest | exact Hb|].
    destruct Hseam as [H|H]; [left | right; exact H].
    intros init c0 E. apply (H (c :: init) c0). rewrite E. reflexivity.
Qed.

Lemma contents_name_has_no_gz (architecture : str) :
  Path.contains_gz architecture = false ->
  Path.contains_gz (lit "Contents-" ++ architecture) = false.
Proof.
  intros H. apply contains_gz_app_false; [reflexivity | exact H|].
  left. intros init c E. apply (f_equal (@rev char)) in E.
  rewrite rev_app_distr in E. vm_compute in E. inversion E. split; discriminate.
Qed.

Lemma prefixed_name_has_no_gz (prefix architecture : str) :
  Path.contains_gz prefix = false ->
  Path.contains_gz architecture = false ->
  Path.contains_gz (prefix ++ lit "Contents-" ++ architecture) = false.
Proof.
  intros Hp Ha. apply contains_gz_app_false;
    [exact Hp | apply contents_name_has_no_gz, Ha|].
  right. intros c r E. inversion E. split; discriminate.
Qed.

Lemma remove_gz_extension (s : str) :
  Path.contains_gz s = false -> Path.remove_gz (s ++ lit ".gz") = s.
Proof.
  intros H. rewrite <- (app_nil_r (lit ".gz")).
  rewrite (remove_gz_app_gz_bounded (n := length s)) by reflexivity.
  rewrite (remove_gz_unchanged _ H).
  apply app_nil_r.
Qed.

(** When neither the script directory nor the architecture has a [.gz] in
    it, the decompressed file is the downloaded file without its extension:
    [Contents-<architecture>] in the script directory. *)
Theorem decompressed_file_drops_extension (script_directory architecture : str) :
  Path.contains_gz script_directory = false ->
  Path.contains_gz architecture = false ->
  Path.decompressed_file script_directory architecture
  = Path.join script_directory (lit "Contents-" ++ architecture).
Proof.
  intros Hd Ha.
  assert (Hrel : forall x, Str.startswith (lit "Contents-" ++ x) (lit "/") = false).
  { intros x. destruct (Str.startswith _ _) eqn:Hs; [|reflexivity].
    apply startswith_decompose in Hs as (r & Hr). discriminate Hr. }
  unfold Path.decompressed_file, Path.destination, Path.file_name, Path.join.
  rewrite (Hrel (architecture ++ lit ".gz")), (Hrel architecture).
  destruct script_directory as [|c d].
  - rewrite app_assoc. apply remove_gz_extension, contents_name_has_no_gz, Ha.
  - destruct (Path.ends_with_slash (c :: d)).
    + rewrite !app_assoc, <- (app_assoc (c :: d)).
      apply remove_gz_extension, prefixed_name_has_no_gz; assumption.
    + rewrite !app_assoc, <- (app_assoc ((c :: d) ++ lit "/")).
      apply remove_gz_extension, prefixed_name_has_no_gz; [|exact Ha].
      apply contains_gz_app_false; [exact Hd | reflexivity|].
      right. intros c0 r E. inversion E. split; discriminate.
Qed.

Lemma decompressed_file_drops_extension_witness :
  Path.decompressed_file (lit "/opt/tool") (lit "amd64")
  = Path.join (lit "/opt/tool") (lit "Contents-" ++ lit "amd64").
Proof.
  apply decompressed_file_drops_extension; vm_compute; reflexivity.
Defined.

(** ** The printed table *)

Section Table.

Example analyze_data_scenario :
  analyze_data scenario
  = Ok [10%N :: lit "Top 10 packages with the most files:";
        lit "Index  Package Name                             Number of Files";
        lit "-----------------------------------------------------------------";
        lit "1      pkgA                                                   2";
        lit "2      pkgB                                                   1";
        lit "3      pkgC                                                   1"].
Proof. vm_compute. reflexivity. Qed.

Example str_of_int_examples :
  map Fmt.str_of_int [0; 7; 10; 1234567890; -42]%Z
  = [lit "0"; lit "7"; lit "10"; lit "1234567890"; lit "-42"].
Proof. vm_compute. reflexivity. Qed.

End Table.

Section Numerals.

Lemma digits_value (fuel : nat) :
  forall n acc,
    (n < 2 ^ N.of_nat fuel)%N ->
    Fmt.value (Fmt.digits fuel n acc)
    = (n * 10 ^ N.of_nat (length acc) + Fmt.value acc)%N.
Proof.
  induction fuel as [|fuel IH]; intros n acc Hn.
  - simpl in Hn. assert (n = 0%N) by lia. subst n. reflexivity.
  - cbn [Fmt.digits]. rewrite Nat2N.inj_succ, N.pow_succ_r' in Hn.
    pose proof (N.div_mod n 10 ltac:(discriminate)) as Hdm.
    pose proof (N.mod_upper_bound n 10 ltac:(discriminate)) as Hm.
    set (q := (n / 10)%N) in *. set (m := (n mod 10)%N) in *.
    set (P := (2 ^ N.of_nat fuel)%N) in *.
    assert (Hv : Fmt.value ((48 + m)%N :: acc)
                 = (m * 10 ^ N.of_nat (length acc) + Fmt.value acc)%N).
    { cbn [Fmt.value]. rewrite (N.add_comm 48), N.add_sub. reflexivity. }
    destruct (n <? 10)%N eqn:Hlt.
    + apply N.ltb_lt in Hlt. rewrite Hv. assert (m = n) by lia. subst m.
      replace n with (10 * q + n)%N at 3 by lia. lia.
    + apply N.ltb_ge in Hlt. rewrite IH by (fold P; lia). rewrite Hv.
      cbn [length]. rewrite Nat2N.inj_succ, N.pow_succ_r'.
      set (w := (10 ^ N.of_nat (length acc))%N). lia.
Qed.

(** The numeral denotes the number it was made from: no digit is lost. *)
Lemma str_of_N_value (n : N) : Fmt.value (Fmt.str_of_N n) = n.
Proof.
  unfold Fmt.str_of_N. rewrite digits_value.
  - simpl. lia.
  - rewrite Nat2N.inj_succ, N2Nat.id.
    destruct n as [|p]; [reflexivity|]. apply N.log2_spec. reflexivity.
Qed.

Lemma digits_length (fuel : nat) :
  forall n acc k,
    (1 <= k)%nat -> (n < 10 ^ N.of_nat k)%N ->
    (length (Fmt.digits fuel n acc) <= length acc + k)%nat.
Proof.
  induction fuel as [|fuel IH]; intros n acc k Hk Hn; cbn [Fmt.digits]; [lia|].
  destruct (n <? 10)%N eqn:Hlt; [simpl; lia|].
  apply N.ltb_ge in Hlt.
  destruct k as [|[|k]]; [lia | simpl in Hn; lia|].
  specialize (IH (n / 10)%N ((48 + n mod 10)%N :: acc) (S k) ltac:(lia)).
  cbn [length] in IH. rewrite IH; [lia|].
  rewrite (Nat2N.inj_succ (S k)), N.pow_succ_r' in Hn.
  pose proof (N.div_mod n 10 ltac:(discriminate)) as Hdm.
  set (q := (n / 10)%N) in *. set (m := (n mod 10)%N) in *.
  set (w := (10 ^ N.of_nat (S k))%N) in *. lia.
Qed.

Lemma digits_are_digits (fuel : nat) :
  forall n acc,
    Forall is_digit acc -> Forall is_digit (Fmt.digits fuel n acc).
Proof.
  induction fuel as [|fuel IH]; intros n acc Hacc; cbn [Fmt.digits]; [exact Hacc|].
  assert (Hd : Forall is_digit ((48 + n mod 10)%N :: acc)).
  { constructor; [|exact Hacc]. unfold is_digit.
    pose proof (N.mod_upper_bound n 10 ltac:(discriminate)).
    set (m := (n mod 10)%N) in *. lia. }
  destruct (n <? 10)%N; [exact Hd | apply IH, Hd].
Qed.

Lemma digits_keep_nonempty (fuel : nat) :
  forall n acc, acc <> [] -> Fmt.digits fuel n acc <> [].
Proof.
  induction fuel as [|fuel IH]; intros n acc Hacc; cbn [Fmt.digits]; [exact Hacc|].
  destruct (n <? 10)%N; [discriminate | apply IH; discriminate].
Qed.

Lemma digits_nonempty (fuel : nat) (n : N) (acc : str) :
  Fmt.digits (S fuel) n acc <> [].
Proof.
  cbn [Fmt.digits]. destruct (n <? 10)%N; [discriminate|].
  apply digits_keep_nonempty. discriminate.
Qed.

Lemma digit_is_not_space (d : char) : is_digit d -> isspace d = false.
Proof.
  unfold is_digit, isspace. intros [Hlo Hhi].
  repeat match goal with
         | |- context [(?a <=? ?b)%N] =>
             destruct (N.leb_spec a b); try lia
         | |- context [(?a =? ?b)%N] =>
             destruct (N.eqb_spec a b); try lia
         end.
Qed.

Lemma str_of_int_word (z : Z) :
  Fmt.str_of_int z <> []
  /\ forallb (fun ch => negb (isspace ch)) (Fmt.str_of_int z) = true.
Proof.
  assert (H : forall n, Fmt.str_of_N n <> []
                        /\ forallb (fun ch => negb (isspace ch)) (Fmt.str_of_N n) = true).
  { intros n. split; [apply digits_nonempty|].
    apply forallb_forall. intros d Hd.
    pose proof (digits_are_digits (S (N.to_nat (N.log2 n))) n (Forall_nil _)) as HF.
    rewrite Forall_forall in HF. rewrite digit_is_not_space by (apply HF, Hd).
    reflexivity. }
  unfold Fmt.str_of_int. destruct (z <? 0)%Z; [|apply H].
  split; [discriminate|]. cbn [forallb]. rewrite (proj2 (H _)). reflexivity.
Qed.

Lemma str_of_int_length (z : Z) (k : nat) :
  (1 <= k)%nat -> (0 <= z < 10 ^ Z.of_nat k)%Z ->
  (length (Fmt.str_of_int z) <= k)%nat.
Proof.
  intros Hk [H0 Hz]. unfold Fmt.str_of_int.
  destruct (z <? 0)%Z eqn:Hneg; [apply Z.ltb_lt in Hneg; lia|].
  unfold Fmt.str_of_N.
  apply (@digits_length _ (Z.to_N z) [] k Hk).
  apply N2Z.inj_lt. rewrite Z2N.id by exact H0.
  rewrite N2Z.inj_pow, nat_N_Z. exact Hz.
Qed.

Lemma ljust_length (w : nat) (s : str) :
  length (Fmt.ljust w s) = Nat.max w (length s).
Proof. unfold Fmt.ljust. rewrite length_app, repeat_length. lia. Qed.

Lemma rjust_length (w : nat) (s : str) :
  length (Fmt.rjust w s) = Nat.max w (length s).
Proof. unfold Fmt.rjust. rewrite length_app, repeat_length. lia. Qed.

End Numerals.

Section Words.

Lemma split_from_word (w : str) :
  forall acc rest,
    forallb (fun ch => negb (isspace ch)) w = true ->
    split_from acc (w ++ rest) = split_from (rev w ++ acc) rest.
Proof.
  induction w as [|c w IH]; intros acc rest Hw; [reflexivity|].
  cbn [forallb] in Hw. apply andb_true_iff in Hw as [Hc Hw].
  apply negb_true_iff in Hc. cbn [app split_from]. rewrite Hc, IH by exact Hw.
  cbn [rev]. rewrite <- app_assoc. reflexivity.
Qed.

Lemma split_word_end (w : str) :
  w <> [] -> forallb (fun ch => negb (isspace ch)) w = true -> split w = [w].
Proof.
  intros Hne Hw. unfold split.
  rewrite <- (app_nil_r w) at 1. rewrite split_from_word by exact Hw.
  rewrite app_nil_r. cbn [split_from].
  destruct (rev w) as [|c rw] eqn:Hr.
  - apply (f_equal (@rev char)) in Hr. rewrite rev_involutive in Hr. contradiction.
  - rewrite <- Hr, rev_involutive. reflexivity.
Qed.

Lemma split_word_spaces (w pad rest : str) :
  w <> [] -> forallb (fun ch => negb (isspace ch)) w = true ->
  pad <> [] -> forallb isspace pad = true ->
  split (w ++ pad ++ rest) = w :: split rest.
Proof.
  intros Hne Hw Hpad Hsp. unfold split.
  rewrite split_from_word by exact Hw. rewrite app_nil_r.
  destruct pad as [|c pad]; [contradiction|].
  cbn [forallb] in Hsp. apply andb_true_iff in Hsp as [Hc Hsp].
  cbn [app split_from]. rewrite Hc.
  destruct (rev w) as [|c' rw] eqn:Hr.
  - apply (f_equal (@rev char)) in Hr. rewrite rev_involutive in Hr. contradiction.
  - rewrite <- Hr, rev_involutive, split_from_leading_spaces by exact Hsp. reflexivity.
Qed.

Lemma spaces_are_spaces (n : nat) : forallb isspace (repeat Fmt.space n) = true.
Proof. induction n as [|n IH]; [reflexivity | exact IH]. Qed.

(** The fields of a line made of an index, a name and a count, with
    padding between them. *)
Lemma split_padded (I pad1 p pad2 C : str) :
  I <> [] -> forallb (fun ch => negb (isspace ch)) I = true ->
  C <> [] -> forallb (fun ch => negb (isspace ch)) C = true ->
  forallb (fun ch => negb (isspace ch)) p = true ->
  pad1 <> [] -> forallb isspace pad1 = true ->
  pad2 <> [] -> forallb isspace pad2 = true ->
  split (I ++ pad1 ++ p ++ pad2 ++ C)
  = [I] ++ match p with [] => [] | _ => [p] end ++ [C].
Proof.
  intros HI HIw HC HCw Hp H1 H1s H2 H2s.
  rewrite split_word_spaces by assumption. cbn [app]. f_equal.
  destruct p as [|c p].
  - cbn [app]. unfold split. rewrite split_from_leading_spaces by exact H2s.
    apply split_word_end; assumption.
  - rewrite split_word_spaces by (assumption || discriminate).
    rewrite split_word_end by assumption. reflexivity.
Qed.

Lemma clean_has_no_space (p : str) :
  clean p = true -> forallb (fun ch => negb (isspace ch)) p = true.
Proof.
  unfold clean. rewrite !forallb_forall. intros H ch Hch.
  specialize (H ch Hch). apply andb_true_iff in H as [H _]. exact H.
Qed.

Lemma row_fields (index : Z) (p : str) (count : Z) :
  forallb (fun ch => negb (isspace ch)) p = true ->
  split (row index p count)
  = [Fmt.str_of_int index] ++ match p with [] => [] | _ => [p] end
    ++ [Fmt.str_of_int count].
Proof.
  intros Hp.
  set (I := Fmt.str_of_int index). set (C := Fmt.str_of_int count).
  assert (Hrow : row index p count
                 = I ++ (repeat Fmt.space (6 - length I) ++ [Fmt.space])
                     ++ p ++ (repeat Fmt.space (40 - length p) ++ [Fmt.space]
                              ++ repeat Fmt.space (15 - length C)) ++ C).
  { unfold row, Fmt.ljust, Fmt.rjust. fold I C. rewrite <- !app_assoc. reflexivity. }
  rewrite Hrow.
  destruct (str_of_int_word index) as [HI HIw].
  destruct (str_of_int_word count) as [HC HCw].
  apply split_padded; try assumption.
  - intros H. apply app_eq_nil in H as [_ H]. discriminate.
  - rewrite forallb_app, spaces_are_spaces. reflexivity.
  - intros H. apply app_eq_nil in H as [_ H]. discriminate.
  - rewrite !forallb_app, !spaces_are_spaces. reflexivity.
Qed.

Lemma row_length (index : Z) (p : str) (count : Z) :
  (0 <= index < 10 ^ 6)%Z -> (0 <= count < 10 ^ 15)%Z ->
  length (row index p count) = (23 + Nat.max 40 (length p))%nat.
Proof.
  intros Hi Hc. unfold row.
  rewrite !length_app, !ljust_length, rjust_length. cbn [length].
  pose proof (@str_of_int_length index 6 ltac:(lia) Hi).
  pose proof (@str_of_int_length count 15 ltac:(lia) Hc). lia.
Qed.

Lemma rows_nth (r : list (str * Z)) :
  forall index i p c,
    nth_error r i = Some (p, c) ->
    nth_error (rows index r) i = Some (row (index + Z.of_nat i) p c).
Proof.
  induction r as [|[p0 c0] r IH]; intros index [|i] p c H; simpl in H; try discriminate.
  - inversion H; subst. cbn [rows nth_error]. rewrite Z.add_0_r. reflexivity.
  - cbn [rows nth_error]. rewrite (IH _ _ _ _ H). f_equal. f_equal. lia.
Qed.

Lemma rows_length (r : list (str * Z)) : forall index, length (rows index r) = length r.
Proof.
  induction r as [|[p c] r IH]; intros index; [reflexivity|].
  cbn [rows length]. rewrite IH. reflexivity.
Qed.

End Words.

Lemma ranked_count_bounds (toks : list str) (n : nat) (e : str * Z) :
  In e (Counter.most_common n (count_packages toks Counter.new)) ->
  (1 <= snd e <= Z.of_nat (length toks))%Z.
Proof.
  destruct e as [k v]. intros Hin. apply most_common_in in Hin.
  split; [exact (proj1 (counted_keys_positive _ _ _ Hin))|].
  rewrite <- (getitem_in _ _ _ (keys_nodup toks) Hin), getitem_count_packages.
  pose proof (count_occ_bound str_eq_dec k toks). simpl. lia.
Qed.

Lemma skipn_app_length (A : Type) (l1 l2 : list A) :
  skipn (length l1) (l1 ++ l2) = l2.
Proof. induction l1 as [|a l1 IH]; [reflexivity | exact IH]. Qed.

Lemma firstn_app_length (A : Type) (l1 l2 : list A) :
  firstn (length l1) (l1 ++ l2) = l1.
Proof. induction l1 as [|a l1 IH]; [reflexivity | simpl; rewrite IH; reflexivity]. Qed.

(** Where the name and the count stand in a row. *)
Lemma row_layout (index : Z) (p : str) (count : Z) :
  (0 <= index < 10 ^ 6)%Z ->
  firstn (length p) (skipn 7 (row index p count)) = p
  /\ skipn (length (row index p count) - length (Fmt.str_of_int count))
       (row index p count)
     = Fmt.str_of_int count.
Proof.
  intros Hi. split.
  - unfold row. rewrite app_assoc.
    assert (H7 : length (Fmt.ljust 6 (Fmt.str_of_int index) ++ [Fmt.space]) = 7%nat).
    { rewrite length_app, ljust_length. cbn [length].
      pose proof (@str_of_int_length index 6 ltac:(lia) Hi). lia. }
    match goal with
    | |- firstn _ (skipn 7 (?front ++ ?rest)) = _ =>
        pose proof (skipn_app_length front rest) as Hs
    end.
    rewrite H7 in Hs. rewrite Hs. unfold Fmt.ljust. rewrite <- app_assoc.
    apply firstn_app_length.
  - assert (Hrow : exists pre, row index p count = pre ++ Fmt.str_of_int count).
    { eexists. unfold row, Fmt.rjust. rewrite !app_assoc. reflexivity. }
    destruct Hrow as (pre & ->). rewrite length_app.
    replace (length pre + length (Fmt.str_of_int count)
             - length (Fmt.str_of_int count))%nat with (length pre) by lia.
    apply skipn_app_length.
Qed.

Lemma rows_layout (r : list (str * Z)) :
  forall index,
    (0 <= index)%Z -> (index + Z.of_nat (length r) <= 10 ^ 6)%Z ->
    Forall (fun e => (0 <= snd e < 10 ^ 15)%Z) r ->
    Forall2
      (fun e line =>
         length line = (23 + Nat.max 40 (length (fst e)))%nat
         /\ firstn (length (fst e)) (skipn 7 line) = fst e
         /\ skipn (length line - length (Fmt.str_of_int (snd e))) line
            = Fmt.str_of_int (snd e))
      r (rows index r).
Proof.
  induction r as [|[p c] r IH]; intros index H0 Hmax Hall; cbn [rows]; [constructor|].
  inversion Hall as [|? ? Hc Hr]; subst. cbn [length] in Hmax. constructor.
  - cbn [fst snd]. split; [apply row_length; [lia | exact Hc]|].
    apply row_layout. lia.
  - apply IH; [lia | lia | exact Hr].
Qed.

(** What [analyze_data] prints is the title, the header line and a rule of
    65 dashes, then one row per ranked entry, in ranking order.  While the
    stream has fewer than 10^15 tokens, the row of an entry has
    23 + max(40, length of the name) code points, so 63, the width of the
    header, for a name of at most 40; the name stands whole from column 7
    on, however long it is, and the count ends the row. *)
Theorem table_rows_are_aligned (lines : list str) :
  (Z.of_nat (length (tokens lines)) < 10 ^ 15)%Z ->
  exists r body,
    parse_contents_file lines = Ok r
    /\ analyze_data lines
       = Ok ([10%N :: lit "Top 10 packages with the most files:";
              lit "Index  Package Name                             Number of Files";
              lit "-----------------------------------------------------------------"]
             ++ body)
    /\ Forall2
         (fun e line =>
            length line = (23 + Nat.max 40 (length (fst e)))%nat
            /\ firstn (length (fst e)) (skipn 7 line) = fst e
            /\ skipn (length line - length (Fmt.str_of_int (snd e))) line
               = Fmt.str_of_int (snd e))
         r body.
Proof.
  intros Hsize. unfold analyze_data. rewrite parse_contents_file_tokens. cbn [bind].
  set (r := Counter.most_common 10 (count_packages (tokens lines) Counter.new)).
  exists r, (rows 1 r). split; [reflexivity|]. split; [reflexivity|].
  apply rows_layout; [lia | |].
  - unfold r, Counter.most_common. rewrite length_firstn. lia.
  - apply Forall_forall. intros e He. apply ranked_count_bounds in He. lia.
Qed.

Lemma table_rows_are_aligned_witness :
  exists r body,
    parse_contents_file scenario = Ok r
    /\ analyze_data scenario
       = Ok ([10%N :: lit "Top 10 packages with the most files:";
              lit "Index  Package Name                             Number of Files";
              lit "-----------------------------------------------------------------"]
             ++ body)
    /\ Forall2
         (fun e line =>
            length line = (23 + Nat.max 40 (length (fst e)))%nat
            /\ firstn (length (fst e)) (skipn 7 line) = fst e
            /\ skipn (length line - length (Fmt.str_of_int (snd e))) line
               = Fmt.str_of_int (snd e))
         r body.
Proof.
  apply table_rows_are_aligned. vm_compute. reflexivity.
Defined.

(** The table reads back: the row printed for the [i]-th ranked entry
    (counted from 0) splits into the index [i + 1], the package name and the
    count.  The one exception is the empty-string package, whose row shows
    the index and the count only. *)
Theorem table_rows_read_back
  (lines : list str) (r : list (str * Z)) (i : nat) (p : str) (c : Z) :
  parse_contents_file lines = Ok r ->
  nth_error r i = Some (p, c) ->
  exists out line,
    analyze_data lines = Ok out
    /\ nth_error out (3 + i) = Some line
    /\ split line
       = [Fmt.str_of_int (Z.of_nat i + 1)]
         ++ match p with [] => [] | _ => [p] end
         ++ [Fmt.str_of_int c].
Proof.
  intros Hr Hi. unfold analyze_data. rewrite Hr. cbn [bind].
  exists ([10%N :: lit "Top 10 packages with the most files:"; header;
           repeat Str.dash 65] ++ rows 1 r), (row (1 + Z.of_nat i) p c).
  split; [reflexivity|]. split.
  - cbn [app Nat.add nth_error]. apply rows_nth, Hi.
  - rewrite (Z.add_comm 1). apply row_fields, clean_has_no_space.
    rewrite parse_contents_file_tokens in Hr. injection Hr as <-.
    apply nth_error_In in Hi. apply most_common_in in Hi.
    apply counted_keys_positive in Hi as [_ Hi]. exact (tokens_clean _ _ Hi).
Qed.

Lemma table_rows_read_back_witness :
  exists out line,
    analyze_data scenario = Ok out
    /\ nth_error out (3 + 1) = Some line
    /\ split line = [Fmt.str_of_int (Z.of_nat 1 + 1)] ++ [lit "pkgB"] ++ [Fmt.str_of_int 1].
Proof.
  apply (@table_rows_read_back scenario
           [(lit "pkgA", 2%Z); (lit "pkgB", 1%Z); (lit "pkgC", 1%Z)] 1 (lit "pkgB") 1%Z).
  - vm_compute. reflexivity.
  - reflexivity.
Defined.

(** ** The download loop *)

Lemma for_chunks_invariant (chunks : list Download.bytes) :
  forall f downloaded reports,
    downloaded = Z.of_nat (length f) ->
    Forall (fun r => (0 < r <= downloaded)%Z) reports ->
    StronglySorted Z.lt reports ->
    let '(f', downloaded', reports') := Download.for_chunks chunks f downloaded reports in
    f' = f ++ concat chunks
    /\ downloaded' = Z.of_nat (length f')
    /\ Forall (fun r => (0 < r <= downloaded')%Z) reports'
    /\ StronglySorted Z.lt reports'
    /\ length reports'
       = (length reports + length (filter (fun c => negb (Nat.eqb (length c) 0)) chunks))%nat
    /\ ((reports' = reports /\ downloaded' = downloaded)
        \/ exists earlier, reports' = earlier ++ [downloaded']).
Proof.
  induction chunks as [|chunk chunks IH]; intros f d reports Hd Hle Hs.
  - cbn [Download.for_chunks concat filter length].
    rewrite app_nil_r, Nat.add_0_r. repeat split; try assumption. left. split; reflexivity.
  - destruct chunk as [|b chunk].
    + cbn [Download.for_chunks concat app filter length Nat.eqb negb].
      apply IH; assumption.
    + cbn [Download.for_chunks].
      set (d' := (d + Z.of_nat (length (b :: chunk)))%Z).
      assert (Hpos : (d < d')%Z) by (unfold d'; cbn [length]; lia).
      specialize (IH (f ++ b :: chunk) d' (reports ++ [d'])).
      destruct (Download.for_chunks chunks (f ++ b :: chunk) d' (reports ++ [d']))
        as [[f' dl'] reports'].
      destruct IH as (Hf & Hdl & Hall & Hsorted & Hlen & Hlast).
      * unfold d'. rewrite length_app. lia.
      * apply Forall_app. split.
        -- eapply Forall_impl; [|exact Hle]. simpl. intros r Hr. lia.
        -- constructor; [|constructor]. unfold d' in *. cbn [length] in *. lia.
      * clear - Hs Hle Hpos. induction reports as [|r reports IHr].
        -- repeat constructor.
        -- inversion Hs; subst. inversion Hle; subst. cbn [app]. constructor.
           ++ apply IHr; assumption.
           ++ apply Forall_app. split; [assumption|]. constructor; [lia | constructor].
      * cbn [concat filter length Nat.eqb negb].
        rewrite <- app_assoc in Hf. rewrite length_app in Hlen. cbn [length] in Hlen.
        repeat split; try assumption; [lia|].
        right. destruct Hlast as [[-> ->]|Hex]; [|exact Hex].
        exists reports. reflexivity.
Qed.

(** The download loop writes every chunk in order, so the file ends up as
    the concatenation of the chunks, and [downloaded] ends up as the length
    of the file.  One progress report is made per non-empty chunk, the
    reported values increase strictly, and the last one is the final size. *)
Theorem download_counts_what_it_writes (chunks : list Download.bytes) :
  let '(f, downloaded, reports) := Download.write_chunks chunks in
  f = concat chunks
  /\ downloaded = Z.of_nat (length f)
  /\ StronglySorted Z.lt reports
  /\ length reports = length (filter (fun c => negb (Nat.eqb (length c) 0)) chunks)
  /\ ((reports = [] /\ downloaded = 0%Z)
      \/ exists earlier, reports = earlier ++ [downloaded]).
Proof.
  unfold Download.write_chunks.
  pose proof (for_chunks_invariant chunks [] (downloaded := 0) (reports := [])
                eq_refl (Forall_nil _) (SSorted_nil _)) as H.
  destruct (Download.for_chunks chunks [] 0 []) as [[f d] reports].
  destruct H as (Hf & Hd & _ & Hs & Hlen & Hlast).
  repeat split; assumption.
Qed.

(** ** main *)

Lemma mem_in (a : str) (l : list str) : Main.mem a l = true <-> In a l.
Proof.
  unfold Main.mem. destruct (in_dec str_eq_dec a l); split; try tauto; discriminate.
Qed.

(** [main] starts a download only for an architecture that is on the list
    scraped from the mirror, hence never for [all] nor for a name with a
    dash or a final slash, and never when the list could not be fetched;
    the download is then that of [Contents-<architecture>.gz], from the
    mirror into the script directory. *)
Theorem main_downloads_only_listed_architectures
  (architecture : str) (w : Main.world) (url destination : str) :
  In (Main.DownloadFile url destination) (fst (Main.main architecture w)) ->
  architecture_ok architecture
  /\ (exists architectures,
        Web.get_supported_architectures (Main.listing w) = Web.Returns architectures
        /\ In architecture architectures)
  /\ url = Main.base_url ++ Path.file_name architecture
  /\ destination = Path.destination (Main.script_directory w) architecture.
Proof.
  unfold Main.main.
  destruct (Web.get_supported_architectures (Main.listing w)) as [archs|e] eqn:Hget;
    [|intros []].
  destruct (Main.mem architecture archs) eqn:Hmem; cbn [negb]; [|intros []].
  apply mem_in in Hmem. intros Hin.
  assert (Hd : Main.DownloadFile url destination
               = Main.DownloadFile (Main.base_url ++ Path.file_name architecture)
                   (Path.join (Main.script_directory w) (Path.file_name architecture))).
  { destruct (Main.download w), (Main.decompress_ok w),
      (Main.remove_destination_ok w), (Main.remove_decompressed_ok w);
      cbn [negb fst app] in Hin;
      repeat (destruct Hin as [Hin|Hin]; [try discriminate Hin; symmetry; exact Hin|]);
      contradiction. }
  inversion Hd; subst. split.
  - assert (Hok : Forall architecture_ok archs).
    { destruct (Main.listing w) as [|hrefs]; simpl in Hget.
      - inversion Hget. constructor.
      - exact (for_links_ok hrefs (Forall_nil _) Hget). }
    rewrite Forall_forall in Hok. exact (Hok _ Hmem).
  - split; [exists archs; split; [reflexivity | exact Hmem]|]. split; reflexivity.
Qed.

Lemma main_downloads_only_listed_architectures_witness :
  architecture_ok (lit "amd64")
  /\ (exists architectures,
        Web.get_supported_architectures
          (Web.Anchors [Some (lit "binary-all/"); Some (lit "binary-amd64/")])
        = Web.Returns architectures
        /\ In (lit "amd64") architectures)
  /\ Main.base_url ++ lit "Contents-amd64.gz"
     = Main.base_url ++ Path.file_name (lit "amd64")
  /\ lit "/opt/tool/Contents-amd64.gz" = Path.destination (lit "/opt/tool") (lit "amd64").
Proof.
  apply (@main_downloads_only_listed_architectures (lit "amd64")
           {| Main.script_directory := lit "/opt/tool";
              Main.listing :=
                Web.Anchors [Some (lit "binary-all/"); Some (lit "binary-amd64/")];
              Main.download := Main.GaveTrue;
              Main.decompress_ok := false;
              Main.analysis_ok := true;
              Main.remove_destination_ok := true;
              Main.remove_decompressed_ok := true |}).
  vm_compute. left. reflexivity.
Defined.

